(** * The template engine of xo (package [templates]): a shallow embedding

    The development follows [templates/types.go]: the registry of template
    sets, the construction of the template funcs, emission of rendered
    templates, the merge of the emitted templates into output files
    ([Process]) and their post processing and persistence ([Write],
    [WriteFiles]).

    Go values are rendered as follows.
    - [string] is [string], compared bytewise ([String.ltb] is Go's [<]);
    - [[]byte] is [list byte];
    - a slice that the code tests against [nil] is an [option (list _)],
      a func-typed field that may be [nil] is an [option] of a function;
    - [map[string]V] is [gmap string V];
    - [error] is the inductive type [error], one constructor per message
      built in this package and one for errors raised elsewhere;
    - the pointer receiver [*TemplateSet] is explicit state passing: the
      registry holds the value of every set and [Process] and [Write] store
      the mutated set back under its name. *)

From Stdlib Require Import Strings.String Strings.Byte Strings.Ascii.
From Stdlib Require Import Lists.List Sorting.Sorted Sorting.Permutation.
From stdpp Require Import base gmap strings list sorting fin_maps.

Local Open Scope string_scope.
Local Open Scope list_scope.

(** ** Values *)

Definition bytes : Type := list byte.

(** The bytes of a string literal, [[]byte("...")]. *)
Definition bytesOf (s : string) : bytes := list_byte_of_string s.

(** Errors.  Each [fmt.Errorf] of the package has its constructor; wrapped
    errors ([%w]) are kept as the argument.  [ErrExternal] stands for an
    error made outside the package: by the operating system, the template
    library, the interpreter or a hook of the template set. *)
Inductive error : Type :=
  | ErrUnknownTemplate (typ : string)
  | ErrBuildFuncs (e : error)
  | ErrLoadFuncs (e : error)
  | ErrReadFuncs (e : error)
  | ErrUseStdlib (e : error)
  | ErrUseSyscall (e : error)
  | ErrUseUnsafe (e : error)
  | ErrUseXo (e : error)
  | ErrEvalFuncs (e : error)
  | ErrEvalInit (e : error)
  | ErrInitSignature (has : string)
  | ErrInitError (e : error)
  | ErrOpenTemplate (name : string) (e : error)
  | ErrReadTemplate (name : string) (e : error)
  | ErrParseTemplate (name : string) (e : error)
  | ErrExecTemplate (file : string) (e : error)
  | ErrIsDirectory (name : string)
  | ErrPostFailed (file : string) (e : error)
  | ErrExternal (msg : string).

(** A Go result [(T, error)]. *)
Inductive result (A : Type) : Type :=
  | Ok (a : A)
  | Err (e : error).
Arguments Ok {A} a.
Arguments Err {A} e.

(** The opaque payload handed to templates ([interface{}]). *)
Definition payload : Type := string.

(** [Template]: the descriptor of a template.  The fields [Set], [Template]
    and [Type] carry a prefix because the bare names are taken. *)
Record Template : Type := mkTemplate {
  tSet : string;
  tTemplate : string;
  tType : string;
  tName : string;
  tData : payload;
  tExtra : list (string * payload)
}.

(** [Template.File]. *)
Definition File (tpl : Template) : string :=
  if negb (String.eqb (tSet tpl) "")
  then tSet tpl +:+ "/" +:+ tTemplate tpl
  else tTemplate tpl.

(** [EmittedTemplate].  [eTemplate] is a pointer in the source and is [nil]
    in the records kept in the file map. *)
Record EmittedTemplate : Type := mkEmitted {
  eTemplate : option Template;
  eBuf : bytes;
  eFile : string;
  eErr : list error
}.

(** The descriptor fields read through [tpl.Template.X]; a [nil] pointer
    would panic, emitted templates always carry their descriptor. *)
Definition descr (e : EmittedTemplate) : Template :=
  match eTemplate e with
  | Some t => t
  | None => mkTemplate "" "" "" "" "" []
  end.

(** A resource tree ([fs.FS], [embed.FS]): what [Open] followed by
    [ioutil.ReadAll] gives for a name. *)
Inductive OpenResult : Type :=
  | OpenNotExist
  | OpenError (e : error)
  | OpenFile (content : result bytes).

Definition FS : Type := string -> OpenResult.

(** [template.FuncMap]: callables are opaque to the engine and are named by
    a label. *)
Definition Callable : Type := string.
Abbreviation FuncMap := (gmap string Callable).

(** The values read from [context.Context] by the accessors at the end of
    the source file. *)
Record Context : Type := mkContext {
  Symbols : list string;
  GenType : string;
  TemplateType : string;
  Suffix : string;
  Src : option FS;
  Out : string
}.

(** [xo.Flag] and [xo.FlagSet], as far as this package reads them. *)
Record Flag : Type := mkFlag {
  ContextKey : string;
  Desc : string
}.

Record FlagSet : Type := mkFlagSet {
  fsType : string;
  fsName : string;
  fsFlag : Flag
}.

(** The data model [xo.XO] is forwarded untouched to the set's [Process]
    func. *)
Definition XO : Type := list payload.

(** Modelled from the spec: the generation logic of a template set (the
    [Process] field; the funcs assigned to it live in the target packages).
    It "owns iterating the model and calling Emit for each fragment", and
    [Emit] is "the only state mutation performed while walking the data
    model": a run of the logic is the sequence of descriptors it passes to
    [Emit], left at the first failing [Emit], and the error it returns
    itself afterwards, if any. *)
Record Generation : Type := mkGeneration {
  genEmits : list Template;
  genErr : option error
}.

(** [TemplateSet].  [SetFor], [SetFlags] and [SetProcess] are the fields
    [For], [Flags] and [Process]; [AddType] is not used by this file. *)
Record TemplateSet : Type := mkTemplateSet {
  Files : FS;
  SetFor : option (list string);
  FileExt : string;
  SetFlags : list Flag;
  Order : list string;
  HeaderTemplate : option (Context -> Template);
  PackageTemplates : option (Context -> list Template);
  Funcs : option (Context -> FuncMap);
  FileName : Context -> Template -> string;
  BuildContext : option (Context -> Context);
  SetProcess : Context -> bool -> XO -> Generation;
  Post : option (Context -> bytes -> result bytes);
  emitted : list EmittedTemplate;
  funcs : FuncMap;
  files : gmap string EmittedTemplate
}.

Definition with_emitted (l : list EmittedTemplate) (set : TemplateSet) : TemplateSet :=
  mkTemplateSet (Files set) (SetFor set) (FileExt set) (SetFlags set) (Order set)
    (HeaderTemplate set) (PackageTemplates set) (Funcs set) (FileName set)
    (BuildContext set) (SetProcess set) (Post set) l (funcs set) (files set).

Definition with_funcs (m : FuncMap) (set : TemplateSet) : TemplateSet :=
  mkTemplateSet (Files set) (SetFor set) (FileExt set) (SetFlags set) (Order set)
    (HeaderTemplate set) (PackageTemplates set) (Funcs set) (FileName set)
    (BuildContext set) (SetProcess set) (Post set) (emitted set) m (files set).

Definition with_files (m : gmap string EmittedTemplate) (set : TemplateSet) : TemplateSet :=
  mkTemplateSet (Files set) (SetFor set) (FileExt set) (SetFlags set) (Order set)
    (HeaderTemplate set) (PackageTemplates set) (Funcs set) (FileName set)
    (BuildContext set) (SetProcess set) (Post set) (emitted set) (funcs set) m.

Definition with_process (g : Context -> bool -> XO -> Generation) (set : TemplateSet)
  : TemplateSet :=
  mkTemplateSet (Files set) (SetFor set) (FileExt set) (SetFlags set) (Order set)
    (HeaderTemplate set) (PackageTemplates set) (Funcs set) (FileName set)
    (BuildContext set) g (Post set) (emitted set) (funcs set) (files set).

(** ** Slice helpers *)

(** [contains]. *)
Fixpoint contains (v : list string) (s : string) : bool :=
  match v with
  | [] => false
  | z :: v' => if String.eqb z s then true else contains v' s
  end.

(** [removeMatching]. *)
Fixpoint removeMatching (v s : list string) : list string :=
  match v with
  | [] => []
  | z :: v' => if contains s z then removeMatching v' s else z :: removeMatching v' s
  end.

(** [sort.Strings]: the sorted permutation of a list of strings is unique,
    so the algorithm is immaterial. *)
Definition sort_Strings (l : list string) : list string := merge_sort String.le l.

(** ** Registry *)

Abbreviation Registry := (gmap string TemplateSet).

(** [Register]. *)
Definition Register (typ : string) (set : TemplateSet) (templates : Registry) : Registry :=
  <[typ := set]> templates.

(** [Types]. *)
Definition Types (templates : Registry) : list string :=
  sort_Strings (map_to_list templates).*1.

(** [For]. *)
Definition For (templates : Registry) (typ name : string) : bool :=
  if String.eqb name "dump" then true
  else match templates !! typ with
       | Some set =>
           match SetFor set with
           | Some l => contains l name
           | None => true
           end
       | None => true
       end.

(** The test of [Flags] that skips a set: [set.For != nil &&
    !contains(set.For, name)]. *)
Definition skipped (set : TemplateSet) (name : string) : bool :=
  match SetFor set with
  | Some l => negb (contains l name)
  | None => false
  end.

(** A set takes part in [Flags name] when it declares no command names or
    declares [name]. *)
Definition declaredFor (set : TemplateSet) (name : string) : Prop :=
  SetFor set = None \/ exists l, SetFor set = Some l /\ name ∈ l.

Definition flagsOf (typ : string) (set : TemplateSet) : list FlagSet :=
  map (fun flag => mkFlagSet typ (ContextKey flag) flag) (SetFlags set).

(** [Flags]. *)
Definition Flags (templates : Registry) (name : string) : list FlagSet :=
  flat_map (fun typ =>
              match templates !! typ with
              | Some set => if skipped set name then [] else flagsOf typ set
              | None => []
              end)
           (Types templates).

(** ** Outside the package *)

(** [sort.Slice] at its one call site.  The library promises a permutation
    of the slice in which no element is less than an earlier one, and no
    more: "the sort is not guaranteed to be stable". *)
Definition emittedLess (x y : EmittedTemplate) : bool :=
  if negb (String.eqb (tTemplate (descr x)) (tTemplate (descr y)))
  then String.ltb (tTemplate (descr x)) (tTemplate (descr y))
  else if negb (String.eqb (tType (descr x)) (tType (descr y)))
  then String.ltb (tType (descr x)) (tType (descr y))
  else String.ltb (tName (descr x)) (tName (descr y)).

Definition notAfter (x y : EmittedTemplate) : Prop := emittedLess y x = false.

Class SortSlice : Type := {
  sort_Slice : list EmittedTemplate -> list EmittedTemplate;
  sort_Slice_perm : forall l, sort_Slice l ≡ₚ l;
  sort_Slice_sorted : forall l, StronglySorted notAfter (sort_Slice l)
}.

(** A parsed template ([*template.Template]) is what [Execute] does with
    it. *)
Definition Parsed : Type := Template -> result bytes.

(** What [i.Eval("funcs.Init")] evaluates to: a func of the expected
    signature, or a value of another type (named as [%T] prints it). *)
Inductive Value : Type :=
  | VInit (z : Context -> result FuncMap)
  | VOther (has : string).

(** A yaegi interpreter, by the outcome of each call made on it. *)
Record Interp : Type := mkInterp {
  UseStdlib : option error;
  UseSyscall : option error;
  UseUnsafe : option error;
  UseSymbols : list string -> option error;
  EvalSrc : bytes -> option error;
  EvalInit : bytes -> result Value
}.

(** The libraries the package calls: sprig's func map, [text/template],
    the [go env GOPATH] lookup and the interpreter made from its result. *)
Class Host : Type := {
  sprig_TxtFuncMap : FuncMap;
  template_Parse : string -> FuncMap -> bytes -> result Parsed;
  GoPath : string;
  interp_New : string -> Interp
}.

(** The output directory as the package observes it through [os.Stat],
    [ioutil.ReadFile] and [ioutil.WriteFile]: a path is absent, a
    directory, a regular file, or refuses access. *)
Inductive node : Type :=
  | Dir
  | Regular (content : bytes)
  | Denied.

Abbreviation Disk := (gmap string node).

Inductive StatResult : Type :=
  | StatNotExist
  | StatError (e : error)
  | StatInfo (isDir : bool).

Definition os_Stat (d : Disk) (name : string) : StatResult :=
  match d !! name with
  | None => StatNotExist
  | Some Denied => StatError (ErrExternal "permission denied")
  | Some Dir => StatInfo true
  | Some (Regular _) => StatInfo false
  end.

Definition ioutil_ReadFile (d : Disk) (name : string) : result bytes :=
  match d !! name with
  | Some (Regular content) => Ok content
  | Some Dir => Err (ErrExternal "is a directory")
  | Some Denied => Err (ErrExternal "permission denied")
  | None => Err (ErrExternal "no such file or directory")
  end.

Definition ioutil_WriteFile (d : Disk) (name : string) (buf : bytes) : result Disk :=
  match d !! name with
  | Some Dir => Err (ErrExternal "is a directory")
  | Some Denied => Err (ErrExternal "permission denied")
  | _ => Ok (<[name := Regular buf]> d)
  end.

(** [filepath.Join] of the output directory and a file name; names are
    taken as clean. *)
Definition filepath_Join (out file : string) : string :=
  if String.eqb out "" then file else out +:+ "/" +:+ file.

(** The calls made on the output directory, in order. *)
Inductive FsOp : Type :=
  | OpStat (name : string)
  | OpReadFile (name : string)
  | OpWriteFile (name : string) (buf : bytes).

(** ** State *)

(** The process: the registry ([var templates]), the output directory and
    the calls made on it so far. *)
Record World : Type := mkWorld {
  templates : Registry;
  disk : Disk;
  trace : list FsOp
}.

(** The state a method of one template set works on. *)
Record St : Type := mkSt {
  st_set : TemplateSet;
  st_disk : Disk;
  st_trace : list FsOp
}.

(** State and error monad of the methods. *)
Definition M (A : Type) : Type := St -> result A * St.

Definition ret {A} (a : A) : M A := fun st => (Ok a, st).

Definition fail {A} (e : error) : M A := fun st => (Err e, st).

Definition bind {A B} (c : M A) (k : A -> M B) : M B :=
  fun st =>
    match c st with
    | (Ok a, st') => k a st'
    | (Err e, st') => (Err e, st')
    end.

Notation "x <- c ;; k" := (bind c (fun x => k))
  (at level 100, c at next level, right associativity).
Notation "c ;; k" := (bind c (fun _ => k))
  (at level 100, right associativity).

Definition getSet : M TemplateSet := fun st => (Ok (st_set st), st).

Definition modifySet (f : TemplateSet -> TemplateSet) : M unit :=
  fun st => (Ok tt, mkSt (f (st_set st)) (st_disk st) (st_trace st)).

Definition logOp (op : FsOp) : M unit :=
  fun st => (Ok tt, mkSt (st_set st) (st_disk st) (st_trace st ++ [op])).

Definition getDisk : M Disk := fun st => (Ok (st_disk st), st).

Definition putDisk (d : Disk) : M unit :=
  fun st => (Ok tt, mkSt (st_set st) d (st_trace st)).

(** [fmt.Errorf("...: %w", err)] around a call. *)
Definition wrap {A} (f : error -> error) (c : M A) : M A :=
  fun st =>
    match c st with
    | (Err e, st') => (Err (f e), st')
    | r => r
    end.

(** ** Methods of a template set *)

Section engine.
Context `{host : Host} `{sorter : SortSlice}.

(** [BaseFuncs]. *)
Definition BaseFuncs : FuncMap := sprig_TxtFuncMap.

(** The template source: [Src(ctx)], or the files of the set. *)
Definition source (ctx : Context) (set : TemplateSet) : FS :=
  match Src ctx with
  | Some src => src
  | None => Files set
  end.

(** [TemplateSet.AddCustomFuncs].  The loop [set.funcs[k] = v] over the
    map returned by [Init] is the union that prefers the new entries. *)
Definition AddCustomFuncs (ctx : Context) : M unit :=
  set <- getSet ;;
  match source ctx set "funcs.go.tpl" with
  | OpenNotExist => ret tt
  | OpenError e => fail (ErrLoadFuncs e)
  | OpenFile (Err e) => fail (ErrReadFuncs e)
  | OpenFile (Ok buf) =>
      let i := interp_New GoPath in
      match UseStdlib i with
      | Some e => fail (ErrUseStdlib e)
      | None =>
      match UseSyscall i with
      | Some e => fail (ErrUseSyscall e)
      | None =>
      match UseUnsafe i with
      | Some e => fail (ErrUseUnsafe e)
      | None =>
      match UseSymbols i (Symbols ctx) with
      | Some e => fail (ErrUseXo e)
      | None =>
      match EvalSrc i buf with
      | Some e => fail (ErrEvalFuncs e)
      | None =>
      match EvalInit i buf with
      | Err e => fail (ErrEvalInit e)
      | Ok (VOther has) => fail (ErrInitSignature has)
      | Ok (VInit z) =>
          match z ctx with
          | Err e => fail (ErrInitError e)
          | Ok m => modifySet (fun s => with_funcs (m ∪ funcs s) s)
          end
      end end end end end end
  end.

(** [TemplateSet.BuildFuncs]. *)
Definition BuildFuncs (ctx : Context) : M unit :=
  set <- getSet ;;
  modifySet (with_funcs (match Funcs set with
                         | None => BaseFuncs
                         | Some f => f ctx
                         end)) ;;
  AddCustomFuncs ctx.

(** [TemplateSet.Load]. *)
Definition Load (ctx : Context) (set : TemplateSet) (tpl : Template) : result Parsed :=
  let name := File tpl +:+ FileExt set +:+ ".tpl" in
  match source ctx set name with
  | OpenNotExist => Err (ErrOpenTemplate name (ErrExternal "file does not exist"))
  | OpenError e => Err (ErrOpenTemplate name e)
  | OpenFile (Err e) => Err (ErrReadTemplate name e)
  | OpenFile (Ok buf) =>
      match template_Parse name (funcs set) buf with
      | Err e => Err (ErrParseTemplate name e)
      | Ok t => Ok t
      end
  end.

(** [TemplateSet.Exec]. *)
Definition Exec (ctx : Context) (set : TemplateSet) (tpl : Template) : result bytes :=
  match Load ctx set tpl with
  | Err e => Err e
  | Ok t =>
      match t tpl with
      | Err e => Err (ErrExecTemplate (File tpl) e)
      | Ok buf => Ok buf
      end
  end.

(** [TemplateSet.Emit]. *)
Definition Emit (ctx : Context) (tpl : Template) : M unit :=
  set <- getSet ;;
  match Exec ctx set tpl with
  | Err e => fail e
  | Ok buf =>
      modifySet (fun s => with_emitted (emitted s ++ [mkEmitted (Some tpl) buf "" []]) s)
  end.

(** [TemplateSet.LoadFile]. *)
Definition LoadFile (ctx : Context) (file : string) (doAppend : bool) : M bytes :=
  let name := filepath_Join (Out ctx) file in
  d <- getDisk ;;
  logOp (OpStat name) ;;
  let header : M bytes :=
    set <- getSet ;;
    match HeaderTemplate set with
    | None => ret []
    | Some h =>
        match Exec ctx set (h ctx) with
        | Err e => fail e
        | Ok buf => ret buf
        end
    end in
  match os_Stat d name with
  | StatNotExist => header
  | StatError e => if negb doAppend then header else fail e
  | StatInfo isDir =>
      if negb doAppend then header
      else if isDir then fail (ErrIsDirectory name)
      else
        logOp (OpReadFile name) ;;
        match ioutil_ReadFile d name with
        | Err e => fail e
        | Ok buf => ret buf
        end
  end.

(** ** [Process] *)

(** The call [set.Process(ctx, doAppend, set, v)]. *)
Fixpoint emitAll (ctx : Context) (tpls : list Template) : M unit :=
  match tpls with
  | [] => ret tt
  | tpl :: tpls' => Emit ctx tpl ;; emitAll ctx tpls'
  end.

Definition generate (ctx : Context) (doAppend : bool) (v : XO) : M unit :=
  set <- getSet ;;
  let g := SetProcess set ctx doAppend v in
  emitAll ctx (genEmits g) ;;
  match genErr g with
  | Some e => fail e
  | None => ret tt
  end.

(** [sortEmitted]. *)
Definition sortEmitted (tpl : list EmittedTemplate) : list EmittedTemplate :=
  sort_Slice tpl.

(** The loop over the package templates: each is emitted and its name
    appended to [additional]. *)
Fixpoint emitPackage (ctx : Context) (tpls : list Template) (additional : list string)
  : M (list string) :=
  match tpls with
  | [] => ret additional
  | tpl :: tpls' =>
      Emit ctx tpl ;;
      emitPackage ctx tpls' (additional ++ [tTemplate tpl])
  end.

(** The processing order: [set.Order], or, when not appending and with
    package templates, their names followed by what is left of
    [set.Order]. *)
Definition packageOrder (ctx : Context) (doAppend : bool) : M (list string) :=
  set <- getSet ;;
  match PackageTemplates set with
  | Some pkg =>
      if negb doAppend
      then
        additional <- emitPackage ctx (pkg ctx) [] ;;
        ret (additional ++ removeMatching (Order set) additional)
      else ret (Order set)
  | None => ret (Order set)
  end.

(** The extension and the file name of an emitted template. *)
Definition fileExtOf (ctx : Context) (set : TemplateSet) : string :=
  if negb (String.eqb (Suffix ctx) "") then Suffix ctx else FileExt set.

Definition fileOf (ctx : Context) (single : string) (set : TemplateSet)
           (tpl : EmittedTemplate) : string :=
  if negb (String.eqb single "") then single
  else FileName set ctx (descr tpl) +:+ fileExtOf ctx set.

Definition with_file (file : string) (tpl : EmittedTemplate) : EmittedTemplate :=
  mkEmitted (eTemplate tpl) (eBuf tpl) file (eErr tpl).

Definition with_buf (buf : bytes) (tpl : EmittedTemplate) : EmittedTemplate :=
  mkEmitted (eTemplate tpl) buf (eFile tpl) (eErr tpl).

Definition with_err (errs : list error) (tpl : EmittedTemplate) : EmittedTemplate :=
  mkEmitted (eTemplate tpl) (eBuf tpl) (eFile tpl) errs.

(** The part "load" of the loop body and the append that follows it. *)
Definition mergeInto (ctx : Context) (doAppend : bool) (file : string) (buf : bytes)
  : M unit :=
  set <- getSet ;;
  match files set !! file with
  | Some f =>
      modifySet (fun s => with_files (<[file := with_buf (eBuf f ++ buf) f]> (files s)) s)
  | None =>
      seed <- LoadFile ctx file doAppend ;;
      modifySet (fun s =>
        with_files (<[file := mkEmitted None (seed ++ buf) file []]> (files s)) s)
  end.

(** The inner loop over [set.emitted] for the name [n]: [done] are the
    elements already visited, [rest] the ones to come.  The assignment
    [tpl.File = ...] goes through the pointer, so the slice holds the
    updated element from then on. *)
Fixpoint mergeEmitted (ctx : Context) (doAppend : bool) (single n : string)
         (done rest : list EmittedTemplate) : M unit :=
  match rest with
  | [] => ret tt
  | tpl :: rest' =>
      if negb (String.eqb (tTemplate (descr tpl)) n)
      then mergeEmitted ctx doAppend single n (done ++ [tpl]) rest'
      else
        set <- getSet ;;
        let tpl' := with_file (fileOf ctx single set tpl) tpl in
        modifySet (with_emitted (done ++ tpl' :: rest')) ;;
        mergeInto ctx doAppend (eFile tpl') (eBuf tpl') ;;
        mergeEmitted ctx doAppend single n (done ++ [tpl']) rest'
  end.

(** The outer loop over [order]. *)
Fixpoint mergeOrder (ctx : Context) (doAppend : bool) (single : string)
         (order : list string) : M unit :=
  match order with
  | [] => ret tt
  | n :: order' =>
      set <- getSet ;;
      mergeEmitted ctx doAppend single n [] (emitted set) ;;
      mergeOrder ctx doAppend single order'
  end.

(** The last part of [Process]: the file map is made anew and the emitted
    templates are merged in the order given. *)
Definition mergeFiles (ctx : Context) (doAppend : bool) (single : string)
           (order : list string) : M unit :=
  modifySet (with_files ∅) ;;
  mergeOrder ctx doAppend single order.

(** The step "build context" of [Process]. *)
Definition runContext (set : TemplateSet) (ctx : Context) : Context :=
  match BuildContext set with
  | Some f => f ctx
  | None => ctx
  end.

(** [Process] once the set is found. *)
Definition processSet (ctx : Context) (doAppend : bool) (single : string) (v : XO)
  : M unit :=
  set <- getSet ;;
  let ctx := runContext set ctx in
  wrap ErrBuildFuncs (BuildFuncs ctx) ;;
  generate ctx doAppend v ;;
  modifySet (fun s => with_emitted (sortEmitted (emitted s)) s) ;;
  order <- packageOrder ctx doAppend ;;
  mergeFiles ctx doAppend single order.

(** Running a method of the set registered under [typ], storing the set
    back. *)
Definition onSet {A} (typ : string) (c : M A) (w : World) : option (result A * World) :=
  match templates w !! typ with
  | None => None
  | Some set =>
      let '(r, st) := c (mkSt set (disk w) (trace w)) in
      Some (r, mkWorld (<[typ := st_set st]> (templates w)) (st_disk st) (st_trace st))
  end.

Definition errorOf {A} (r : result A) : option error :=
  match r with
  | Ok _ => None
  | Err e => Some e
  end.

(** [Process]. *)
Definition Process (ctx : Context) (doAppend : bool) (single : string) (v : XO)
           (w : World) : option error * World :=
  let typ := TemplateType ctx in
  match onSet typ (processSet ctx doAppend single v) w with
  | None => (Some (ErrUnknownTemplate typ), w)
  | Some (r, w') => (errorOf r, w')
  end.

(** ** [Write], [WriteFiles] and [Errors] *)

(** The sorted names of the file map. *)
Definition fileNames (set : TemplateSet) : list string :=
  sort_Strings (map_to_list (files set)).*1.

Fixpoint forEach {A} (l : list A) (body : A -> M unit) : M unit :=
  match l with
  | [] => ret tt
  | x :: l' => body x ;; forEach l' body
  end.

(** The body of the loop of [Write].  The names come from the map, so the
    entry is there. *)
Definition postFile (post : Context -> bytes -> result bytes) (ctx : Context)
           (file : string) : M unit :=
  set <- getSet ;;
  match files set !! file with
  | None => ret tt
  | Some f =>
      match post ctx (eBuf f) with
      | Err e =>
          modifySet (fun s =>
            with_files (<[file := with_err (eErr f ++ [ErrPostFailed file e]) f]> (files s)) s)
      | Ok buf =>
          modifySet (fun s => with_files (<[file := with_buf buf f]> (files s)) s)
      end
  end.

(** The body of the loop of [WriteFiles]. *)
Definition writeFile (ctx : Context) (file : string) : M unit :=
  set <- getSet ;;
  match files set !! file with
  | None => ret tt
  | Some f =>
      let name := filepath_Join (Out ctx) file in
      d <- getDisk ;;
      logOp (OpWriteFile name (eBuf f)) ;;
      match ioutil_WriteFile d name (eBuf f) with
      | Err e =>
          modifySet (fun s => with_files (<[file := with_err (eErr f ++ [e]) f]> (files s)) s)
      | Ok d' => putDisk d'
      end
  end.

(** [WriteFiles] once the set is found. *)
Definition writeFilesSet (ctx : Context) : M unit :=
  set <- getSet ;;
  forEach (fileNames set) (writeFile ctx).

(** [Write] once the set is found. *)
Definition writeSet (ctx : Context) : M unit :=
  set <- getSet ;;
  match Post set with
  | None => writeFilesSet ctx
  | Some post =>
      forEach (fileNames set) (postFile post ctx) ;;
      writeFilesSet ctx
  end.

(** [WriteFiles]. *)
Definition WriteFiles (ctx : Context) (w : World) : option error * World :=
  let typ := TemplateType ctx in
  match onSet typ (writeFilesSet ctx) w with
  | None => (Some (ErrUnknownTemplate typ), w)
  | Some (r, w') => (errorOf r, w')
  end.

(** [Write]. *)
Definition Write (ctx : Context) (w : World) : option error * World :=
  let typ := TemplateType ctx in
  match onSet typ (writeSet ctx) w with
  | None => (Some (ErrUnknownTemplate typ), w)
  | Some (r, w') => (errorOf r, w')
  end.

(** [Errors]. *)
Definition Errors (ctx : Context) (w : World) : result (list error) :=
  let typ := TemplateType ctx in
  match templates w !! typ with
  | None => Err (ErrUnknownTemplate typ)
  | Some set =>
      Ok (flat_map (fun file => match files set !! file with
                                | Some f => eErr f
                                | None => []
                                end)
                   (fileNames set))
  end.
End engine.

(** ** A concrete host

    [sort.Slice] runs an insertion sort on slices of at most twelve
    elements: every element in turn moves towards the front while it is
    less than its neighbour.  [sink] works on the sorted prefix in reverse. *)
Fixpoint sink (x : EmittedTemplate) (prefix : list EmittedTemplate) : list EmittedTemplate :=
  match prefix with
  | [] => [x]
  | p :: ps => if emittedLess x p then p :: sink x ps else x :: p :: ps
  end.

Definition insertionSort (l : list EmittedTemplate) : list EmittedTemplate :=
  rev (fold_left (fun prefix x => sink x prefix) l []).

(** A template library for the examples: parsing never fails and executing
    a template writes its source, the instance name of the descriptor and
    its payload. *)
Definition demoParse (name : string) (fm : FuncMap) (src : bytes) : result Parsed :=
  Ok (fun tpl => Ok (src ++ bytesOf (tName tpl) ++ bytesOf (tData tpl))).

Definition noInterp : Interp :=
  mkInterp None None None (fun _ => None) (fun _ => None) (fun _ => Ok (VOther "nil")).

Definition demoHost : Host :=
  {| sprig_TxtFuncMap := {[ "upper" := "strings.ToUpper" ]};
     template_Parse := demoParse;
     GoPath := "/go";
     interp_New := fun _ => noInterp |}.

(** ** Scenarios

    The target "demo" of the specification: the order is header, table,
    footer, all templates go to one file, and the generation logic emits
    the footer, a table for every name of the data model, in the order of
    the data model, and the header.  Lines end in a semicolon. *)
Definition demoFiles : FS := fun name =>
  if String.eqb name "header.sql.tpl" then OpenFile (Ok (bytesOf "-- generated --;"))
  else if String.eqb name "table.sql.tpl" then OpenFile (Ok (bytesOf "TABLE "))
  else if String.eqb name "footer.sql.tpl" then OpenFile (Ok (bytesOf "-- end --;"))
  else if String.eqb name "note.sql.tpl" then OpenFile (Ok (bytesOf "NOTE "))
  else if String.eqb name "db.sql.tpl" then OpenFile (Ok (bytesOf "DB "))
  else if String.eqb name "index.sql.tpl" then OpenFile (Ok (bytesOf "INDEX "))
  else OpenNotExist.

Definition descriptor (template name data : string) : Template :=
  mkTemplate "" template "" name data [].

Definition tableOf (name : string) : Template := descriptor "table" name ";".

Definition demoLogic : Context -> bool -> XO -> Generation :=
  fun _ _ v =>
    mkGeneration (descriptor "footer" "" "" :: map tableOf v ++ [descriptor "header" "" ""])
                 None.

(** The same logic, walking the data model from its end. *)
Definition reverseLogic : Context -> bool -> XO -> Generation :=
  fun ctx doAppend v => demoLogic ctx doAppend (rev v).

Definition demoSet : TemplateSet :=
  mkTemplateSet demoFiles None ".sql" [] ["header"; "table"; "footer"]
    None None None (fun _ _ => "out") None demoLogic None [] ∅ ∅.

Definition demoCtx : Context := mkContext [] "" "demo" "" None "gen".

Definition demoWorld : World := mkWorld {[ "demo" := demoSet ]} ∅ [].

(** A template set that declares nothing. *)
Definition plainSet : TemplateSet :=
  mkTemplateSet (fun _ => OpenNotExist) None "" [] [] None None None
    (fun _ tpl => tTemplate tpl) None (fun _ _ _ => mkGeneration [] None) None [] ∅ ∅.

Definition with_for (l : option (list string)) (fl : list Flag) (set : TemplateSet)
  : TemplateSet :=
  mkTemplateSet (Files set) l (FileExt set) fl (Order set)
    (HeaderTemplate set) (PackageTemplates set) (Funcs set) (FileName set)
    (BuildContext set) (SetProcess set) (Post set) (emitted set) (funcs set) (files set).

(** A set for the command "schema" only, with one flag. *)
Definition jsonFlag : Flag := mkFlag "indent" "indent spacing".
Definition jsonSet : TemplateSet := with_for (Some ["schema"]) [jsonFlag] plainSet.
Definition jsonRegistry : Registry := Register "json" jsonSet ∅.

(** A context that names a target nobody registered. *)
Definition missingCtx : Context := mkContext [] "" "missing" "" None "gen".

(** Emitted templates as [Emit] leaves them, and a set in which an "index"
    template, which the order of "demo" does not list, sits between two
    tables. *)
Definition emittedOf (tpl : Template) (buf : string) : EmittedTemplate :=
  mkEmitted (Some tpl) (bytesOf buf) "" [].

Definition strayIndex : EmittedTemplate :=
  emittedOf (descriptor "index" "users_pkey" ";") "INDEX users_pkey;".

Definition straySet : TemplateSet :=
  with_emitted [emittedOf (tableOf "posts") "TABLE posts;"; strayIndex;
                emittedOf (tableOf "users") "TABLE users;"] demoSet.

(** A target whose generation logic emits, after the tables, an index for
    every entity, under a template name that its order does not list. *)
Definition indexLogic : Context -> bool -> XO -> Generation :=
  fun _ _ v => mkGeneration (map tableOf v ++ map (fun n => descriptor "index" n ";") v) None.

Definition indexSet : TemplateSet :=
  mkTemplateSet demoFiles None ".sql" [] ["table"]
    None None None (fun _ _ => "out") None indexLogic None [] ∅ ∅.

(** The output directory with a directory, and with an older file, where
    "demo" writes its file. *)
Definition dirWorld : World :=
  mkWorld {[ "demo" := demoSet ]} {[ "gen/out.sql" := Dir ]} [].

Definition appendWorld : World :=
  mkWorld {[ "demo" := demoSet ]} {[ "gen/out.sql" := Regular (bytesOf "-- old --;") ]} [].

(** Targets with package templates: the order lists "db" after "table".
    In [pkgSet] the generation logic emits the tables only; in [entitySet]
    it also emits a "db" template for every entity; in [twiceSet] the
    factory returns two package templates with the one name "db". *)
Definition tablesLogic : Context -> bool -> XO -> Generation :=
  fun _ _ v => mkGeneration (map tableOf v) None.

Definition entityLogic : Context -> bool -> XO -> Generation :=
  fun _ _ v => mkGeneration (map tableOf v ++ map (fun n => descriptor "db" n ";") v) None.

Definition packageOf (name : string) : Template := descriptor "db" name ";".

Definition pkgSet : TemplateSet :=
  mkTemplateSet demoFiles None ".sql" [] ["table"; "db"]
    None (Some (fun _ => [packageOf "package"])) None (fun _ _ => "out") None
    tablesLogic None [] ∅ ∅.

Definition entitySet : TemplateSet := with_process entityLogic pkgSet.

Definition twiceSet : TemplateSet :=
  mkTemplateSet demoFiles None ".sql" [] ["table"; "db"]
    None (Some (fun _ => [packageOf "one"; packageOf "two"])) None (fun _ _ => "out") None
    tablesLogic None [] ∅ ∅.

Definition worldOf (set : TemplateSet) : World := mkWorld {[ "demo" := set ]} ∅ [].

(** A target with three merged files and a hook that fails on bytes that
    start with "A" and otherwise appends "!"; the path of the third file is
    a directory. *)
Definition demoPost : Context -> bytes -> result bytes :=
  fun _ buf =>
    match buf with
    | x41 :: _ => Err (ErrExternal "gofmt")
    | _ => Ok (buf ++ bytesOf "!")
    end.

Definition postSet : TemplateSet :=
  mkTemplateSet demoFiles None ".sql" [] ["table"]
    None None None (fun _ _ => "out") None tablesLogic (Some demoPost) [] ∅
    {[ "a.sql" := mkEmitted None (bytesOf "AAA") "a.sql" [];
       "b.sql" := mkEmitted None (bytesOf "BBB") "b.sql" [];
       "c.sql" := mkEmitted None (bytesOf "CCC") "c.sql" [] ]}.

Definition postWorld : World :=
  mkWorld {[ "demo" := postSet ]} {[ "gen/c.sql" := Dir ]} [].

(** A host whose interpreter takes every script and finds in it an [Init]
    of the right signature that returns one func; a target whose
    funcs.go.tpl is there and a target whose funcs.go.tpl cannot be read. *)
Definition goodInterp : Interp :=
  mkInterp None None None (fun _ => None) (fun _ => None)
           (fun _ => Ok (VInit (fun _ => Ok {[ "snake" := "funcs.snake" ]}))).

Definition scriptHost : Host :=
  {| sprig_TxtFuncMap := {[ "upper" := "strings.ToUpper" ]};
     template_Parse := demoParse;
     GoPath := "/go";
     interp_New := fun _ => goodInterp |}.

Definition with_resources (fs : FS) (set : TemplateSet) : TemplateSet :=
  mkTemplateSet fs (SetFor set) (FileExt set) (SetFlags set) (Order set)
    (HeaderTemplate set) (PackageTemplates set) (Funcs set) (FileName set)
    (BuildContext set) (SetProcess set) (Post set) (emitted set) (funcs set) (files set).

Definition scriptedSet : TemplateSet :=
  with_resources (fun name => if String.eqb name "funcs.go.tpl"
                              then OpenFile (Ok (bytesOf "package funcs"))
                              else demoFiles name) demoSet.

Definition unreadableSet : TemplateSet :=
  with_resources (fun name => if String.eqb name "funcs.go.tpl"
                              then OpenFile (Err (ErrExternal "is a directory"))
                              else demoFiles name) demoSet.

(** The set of a world and the bytes of one of its file buffers. *)
Definition setOf (typ : string) (w : World) : TemplateSet :=
  default plainSet (templates w !! typ).

Definition bufferOf (typ file : string) (w : World) : option bytes :=
  eBuf <$> files (setOf typ w) !! file.

(** A target whose generation logic emits one note per entry of the data
    model, all under the same template, type and instance name. *)
Definition noteLogic : Context -> bool -> XO -> Generation :=
  fun _ _ v => mkGeneration (map (descriptor "note" "") v) None.

Definition noteSet : TemplateSet :=
  mkTemplateSet demoFiles None ".sql" [] ["note"]
    None None None (fun _ _ => "out") None noteLogic None [] ∅ ∅.

Definition noteWorld : World := mkWorld {[ "demo" := noteSet ]} ∅ [].

(** ** Reference description of the merge *)

Section merge.
Context `{host : Host} `{sorter : SortSlice}.

(** The header of a new file: nothing, or the rendered header template. *)
Definition headerOf (ctx : Context) (set : TemplateSet) : result bytes :=
  match HeaderTemplate set with
  | None => Ok []
  | Some h => Exec ctx set (h ctx)
  end.

(** What [LoadFile] returns for a file and the calls it makes on the
    output directory ([LoadFile_run] below). *)
Definition seedOf (ctx : Context) (doAppend : bool) (set : TemplateSet) (d : Disk)
           (file : string) : result bytes * list FsOp :=
  let name := filepath_Join (Out ctx) file in
  match os_Stat d name with
  | StatNotExist => (headerOf ctx set, [OpStat name])
  | StatError e =>
      if doAppend then (Err e, [OpStat name]) else (headerOf ctx set, [OpStat name])
  | StatInfo isDir =>
      if doAppend
      then if isDir then (Err (ErrIsDirectory name), [OpStat name])
           else (ioutil_ReadFile d name, [OpStat name; OpReadFile name])
      else (headerOf ctx set, [OpStat name])
  end.

(** A change of the set of a state. *)
Definition onSt (f : TemplateSet -> TemplateSet) (st : St) : St :=
  mkSt (f (st_set st)) (st_disk st) (st_trace st).

(** The result of a method that returned [err]. *)
Definition resultOf (err : option error) : result unit :=
  match err with
  | None => Ok tt
  | Some e => Err e
  end.

(** The merge on the file map alone: the items are the file name and the
    bytes of the emitted templates in the order they are visited. *)
Fixpoint mergeItems (seed : string -> result bytes * list FsOp)
         (items : list (string * bytes)) (fs : gmap string EmittedTemplate)
         (tr : list FsOp) : option error * gmap string EmittedTemplate * list FsOp :=
  match items with
  | [] => (None, fs, tr)
  | (file, buf) :: items' =>
      match fs !! file with
      | Some f => mergeItems seed items' (<[file := with_buf (eBuf f ++ buf) f]> fs) tr
      | None =>
          match seed file with
          | (Ok s, ops) =>
              mergeItems seed items' (<[file := mkEmitted None (s ++ buf) file []]> fs)
                         (tr ++ ops)
          | (Err e, ops) => (Some e, fs, tr ++ ops)
          end
      end
  end.

(** The emitted templates with the name [n], and the sequence in which
    the two loops visit the emitted templates. *)
Definition matching (n : string) (E : list EmittedTemplate) : list EmittedTemplate :=
  filter (fun t => tTemplate (descr t) = n) E.

Definition visited (order : list string) (E : list EmittedTemplate) : list EmittedTemplate :=
  flat_map (fun n => matching n E) order.

Definition itemsOf (ctx : Context) (single : string) (set : TemplateSet)
           (l : list EmittedTemplate) : list (string * bytes) :=
  map (fun t => (fileOf ctx single set t, eBuf t)) l.

(** The emitted templates of a file. *)
Definition destined (ctx : Context) (single : string) (set : TemplateSet) (file : string)
           (l : list EmittedTemplate) : list EmittedTemplate :=
  filter (fun t => fileOf ctx single set t = file) l.

(** The mark [tpl.File = ...] left on a visited template. *)
Definition marked (ctx : Context) (single : string) (set : TemplateSet)
           (t : EmittedTemplate) : EmittedTemplate :=
  with_file (fileOf ctx single set t) t.

(** The bytes merged into a file, and the entry of the file map they make
    from the entry there was, or from the seed of a new file. *)
Definition bufsFor (file : string) (items : list (string * bytes)) : list bytes :=
  map snd (filter (fun it => it.1 = file) items).

Definition mergedEntry (seed : string -> result bytes * list FsOp)
           (fs : gmap string EmittedTemplate) (items : list (string * bytes))
           (file : string) : option EmittedTemplate :=
  match fs !! file with
  | Some e => Some (with_buf (eBuf e ++ concat (bufsFor file items)) e)
  | None =>
      match bufsFor file items, seed file with
      | _ :: _, (Ok s, _) => Some (mkEmitted None (s ++ concat (bufsFor file items)) file [])
      | _, _ => None
      end
  end.

(** The outcome of [BuildFuncs] and the funcs it leaves in the set. *)
Definition buildResult (ctx : Context) (set : TemplateSet) : result unit * FuncMap :=
  let '(r, st) := BuildFuncs ctx (mkSt set ∅ []) in (r, funcs (st_set st)).

(** The funcs before the custom funcs are added. *)
Definition baseline (ctx : Context) (set : TemplateSet) : FuncMap :=
  match Funcs set with
  | None => BaseFuncs
  | Some f => f ctx
  end.

(** The ways the custom funcs can fail once funcs.go.tpl has been read:
    the interpreter cannot take one of the symbol tables, the script does
    not evaluate, [funcs.Init] does not evaluate (it is missing), it has
    another signature, or it returns an error. *)
Definition setupFails (i : Interp) (ctx : Context) : Prop :=
  is_Some (UseStdlib i) \/ is_Some (UseSyscall i) \/ is_Some (UseUnsafe i) \/
  is_Some (UseSymbols i (Symbols ctx)).

Definition scriptFails (i : Interp) (buf : bytes) : Prop := is_Some (EvalSrc i buf).

Definition initMissing (i : Interp) (buf : bytes) : Prop :=
  exists e, EvalInit i buf = Err e.

Definition initMisshaped (i : Interp) (buf : bytes) : Prop :=
  exists has, EvalInit i buf = Ok (VOther has).

Definition initFails (i : Interp) (ctx : Context) (buf : bytes) : Prop :=
  exists z e, EvalInit i buf = Ok (VInit z) /\ z ctx = Err e.

(** The emitted template [Emit] appends for a descriptor that renders. *)
Definition renders (ctx : Context) (set : TemplateSet) (tpl : Template) : bool :=
  match Exec ctx set tpl with
  | Ok _ => true
  | Err _ => false
  end.

Definition frag (ctx : Context) (set : TemplateSet) (tpl : Template) : EmittedTemplate :=
  mkEmitted (Some tpl)
            (match Exec ctx set tpl with
             | Ok buf => buf
             | Err _ => []
             end) "" [].

(** The package templates rendered by a run, and the order it processes. *)
Definition packageDescrs (set : TemplateSet) (ctx : Context) (doAppend : bool)
  : list Template :=
  match PackageTemplates set with
  | Some pkg => if negb doAppend then pkg ctx else []
  | None => []
  end.

Definition finalOrder (set : TemplateSet) (ctx : Context) (doAppend : bool) : list string :=
  match PackageTemplates set with
  | Some pkg =>
      if negb doAppend
      then map tTemplate (pkg ctx) ++ removeMatching (Order set) (map tTemplate (pkg ctx))
      else Order set
  | None => Order set
  end.

(** The pieces of a run of [Process] on the set [set]: the set once the
    funcs are built, the templates emitted by the generation logic, the
    emitted templates as sorted, the package templates emitted after the
    sort, and the sequence in which the merge visits them all. *)
Definition builtSet (ctx : Context) (set : TemplateSet) : TemplateSet :=
  with_funcs (buildResult (runContext set ctx) set).2 set.

Definition generated (ctx : Context) (doAppend : bool) (v : XO) (set : TemplateSet)
  : list EmittedTemplate :=
  map (frag (runContext set ctx) (builtSet ctx set))
      (genEmits (SetProcess set (runContext set ctx) doAppend v)).

Definition sortedOf (ctx : Context) (doAppend : bool) (v : XO) (set : TemplateSet)
  : list EmittedTemplate :=
  sortEmitted (emitted set ++ generated ctx doAppend v set).

Definition packaged (ctx : Context) (doAppend : bool) (set : TemplateSet)
  : list EmittedTemplate :=
  map (frag (runContext set ctx) (builtSet ctx set))
      (packageDescrs set (runContext set ctx) doAppend).

Definition mergedOf (ctx : Context) (doAppend : bool) (v : XO) (set : TemplateSet)
  : list EmittedTemplate :=
  visited (finalOrder set (runContext set ctx) doAppend)
          (sortedOf ctx doAppend v set ++ packaged ctx doAppend set).

(** What the specification says of one file in [Write] and [WriteFiles]:
    a failure of the hook goes to the error list of the file and leaves its
    bytes, a failure of the write goes to the error list of the file. *)
Definition posted (set : TemplateSet) (ctx : Context) (file : string)
           (e : EmittedTemplate) : EmittedTemplate :=
  match Post set with
  | None => e
  | Some post =>
      match post ctx (eBuf e) with
      | Err err => with_err (eErr e ++ [ErrPostFailed file err]) e
      | Ok buf => with_buf buf e
      end
  end.

Definition persisted (d : Disk) (ctx : Context) (file : string) (e : EmittedTemplate)
  : EmittedTemplate :=
  match ioutil_WriteFile d (filepath_Join (Out ctx) file) (eBuf e) with
  | Err err => with_err (eErr e ++ [err]) e
  | Ok _ => e
  end.

(** What is at the path of a file after the write of its bytes. *)
Definition onDisk (d : Disk) (ctx : Context) (file : string) (e : EmittedTemplate)
  : option node :=
  match ioutil_WriteFile d (filepath_Join (Out ctx) file) (eBuf e) with
  | Err _ => d !! filepath_Join (Out ctx) file
  | Ok _ => Some (Regular (eBuf e))
  end.

(** Two slices that differ in the [File] marks only. *)
Definition sameFragments (E E' : list EmittedTemplate) : Prop :=
  map (with_file "") E = map (with_file "") E'.
End merge.

(** ** The order of [sortEmitted] *)

(** The sort key of an emitted template. *)
Definition key (x : EmittedTemplate) : string * string * string :=
  (tTemplate (descr x), tType (descr x), tName (descr x)).

Lemma ltb_irrefl s : String.ltb s s = false.
Proof.
  unfold String.ltb. pose proof (String.compare_antisym s s) as H.
  destruct (String.compare s s); simpl in H; congruence.
Qed.

Lemma ltb_leb s1 s2 : String.ltb s1 s2 = false <-> String.leb s2 s1 = true.
Proof.
  unfold String.ltb, String.leb. rewrite (String.compare_antisym s1 s2).
  destruct (String.compare s2 s1); simpl; split; congruence.
Qed.

Lemma ltb_asym s1 s2 : String.ltb s1 s2 = true -> String.ltb s2 s1 = false.
Proof.
  unfold String.ltb. rewrite (String.compare_antisym s1 s2).
  destruct (String.compare s2 s1); simpl; congruence.
Qed.

Lemma ltb_total s1 s2 : String.ltb s1 s2 = false -> String.ltb s2 s1 = false -> s1 = s2.
Proof.
  rewrite !ltb_leb. intros H1 H2. by apply String.leb_antisym.
Qed.

Lemma ltb_false_trans s1 s2 s3 :
  String.ltb s2 s1 = false -> String.ltb s3 s2 = false -> String.ltb s3 s1 = false.
Proof.
  rewrite !ltb_leb. intros H1 H2.
  pose proof (@transitivity _ String.le _ s1 s2 s3) as Ht.
  unfold String.le in Ht. apply Is_true_true, Ht; by apply Is_true_true.
Qed.

Lemma ltb_trans_ne s1 s2 s3 :
  String.ltb s2 s1 = false -> String.ltb s3 s2 = false -> s1 <> s2 -> s1 <> s3.
Proof.
  intros H1 H2 Hne ->. apply Hne. by apply ltb_total.
Qed.

Ltac key_cases :=
  repeat match goal with
         | |- context [String.eqb ?a ?b] => destruct (String.eqb_spec a b); subst; simpl
         | H : context [String.eqb ?a ?b] |- _ =>
             destruct (String.eqb_spec a b); subst; simpl in H
         end.

Lemma notAfter_refl x : notAfter x x.
Proof.
  unfold notAfter, emittedLess. rewrite !String.eqb_refl. simpl. apply ltb_irrefl.
Qed.

Lemma notAfter_total x y : notAfter x y \/ notAfter y x.
Proof.
  unfold notAfter, emittedLess. key_cases;
    try congruence;
    match goal with
    | |- String.ltb ?a ?b = false \/ _ =>
        destruct (String.ltb a b) eqn:E; [right; by apply ltb_asym | by left]
    end.
Qed.

Lemma notAfter_less x y : emittedLess x y = true -> notAfter x y.
Proof.
  unfold notAfter, emittedLess. key_cases; try congruence; apply ltb_asym.
Qed.

Lemma notAfter_trans x y z : notAfter x y -> notAfter y z -> notAfter x z.
Proof.
  unfold notAfter, emittedLess. intros H1 H2. key_cases; try congruence;
    eauto using ltb_false_trans;
    try (exfalso; eapply ltb_trans_ne; [exact H1 | exact H2 | done | done]);
    try (exfalso; eapply ltb_trans_ne; [exact H2 | exact H1 | done | done]).
Qed.

Lemma notAfter_antisym x y : notAfter x y -> notAfter y x -> key x = key y.
Proof.
  unfold notAfter, emittedLess, key. intros H1 H2. key_cases; try congruence;
    pose proof (ltb_total _ _ H1 H2); congruence.
Qed.

Global Instance notAfter_dec x y : Decision (notAfter x y).
Proof. unfold notAfter. apply _. Defined.

(** ** The insertion sort meets the promise of [sort.Slice] *)

Lemma sink_perm x prefix : sink x prefix ≡ₚ x :: prefix.
Proof.
  induction prefix as [|p ps IH]; simpl; [done|].
  destruct (emittedLess x p); [|done].
  rewrite IH. apply Permutation_swap.
Qed.

Lemma sink_sorted x prefix :
  StronglySorted (flip notAfter) prefix -> StronglySorted (flip notAfter) (sink x prefix).
Proof.
  induction prefix as [|p ps IH]; simpl; intros Hs.
  - repeat constructor.
  - apply StronglySorted_cons in Hs as [Hp Hps].
    destruct (emittedLess x p) eqn:E.
    + apply StronglySorted_cons. split; [|by apply IH].
      rewrite sink_perm. constructor; [|done].
      unfold flip. by apply notAfter_less.
    + apply StronglySorted_cons. split.
      * constructor; [exact E|].
        eapply Forall_impl; [exact Hp|]. unfold flip. intros q Hq.
        eapply notAfter_trans; [exact Hq | exact E].
      * by apply StronglySorted_cons.
Qed.

Lemma sinks_perm l prefix :
  fold_left (fun prefix x => sink x prefix) l prefix ≡ₚ l ++ prefix.
Proof.
  revert prefix. induction l as [|x l IH]; intros prefix; simpl; [done|].
  rewrite IH, sink_perm. by rewrite Permutation_middle.
Qed.

Lemma sinks_sorted l prefix :
  StronglySorted (flip notAfter) prefix ->
  StronglySorted (flip notAfter) (fold_left (fun prefix x => sink x prefix) l prefix).
Proof.
  revert prefix. induction l as [|x l IH]; intros prefix Hs; simpl; [done|].
  by apply IH, sink_sorted.
Qed.

Lemma StronglySorted_rev {A} (R : relation A) (l : list A) :
  StronglySorted (flip R) l -> StronglySorted R (rev l).
Proof.
  induction l as [|x l IH]; simpl; intros Hs; [constructor|].
  apply StronglySorted_cons in Hs as [Hx Hl].
  apply StronglySorted_app. split_and!.
  - intros x1 x2 Hx1 Hx2. apply list_elem_of_singleton in Hx2 as ->.
    rewrite Forall_forall in Hx. apply Hx.
    apply list_elem_of_In. apply in_rev. by apply list_elem_of_In.
  - by apply IH.
  - repeat constructor.
Qed.

Lemma insertionSort_perm l : insertionSort l ≡ₚ l.
Proof.
  unfold insertionSort. rewrite <- Permutation_rev, sinks_perm. by rewrite app_nil_r.
Qed.

Lemma insertionSort_sorted l : StronglySorted notAfter (insertionSort l).
Proof.
  unfold insertionSort. apply StronglySorted_rev, sinks_sorted. constructor.
Qed.

Definition insertionSorter : SortSlice :=
  {| sort_Slice := insertionSort;
     sort_Slice_perm := insertionSort_perm;
     sort_Slice_sorted := insertionSort_sorted |}.

(** The engine on the hosts of the scenarios. *)
Definition demoProcess : Context -> bool -> string -> XO -> World -> option error * World :=
  @Process demoHost insertionSorter.

Definition scriptProcess : Context -> bool -> string -> XO -> World -> option error * World :=
  @Process scriptHost insertionSorter.

Definition demoWrite : Context -> World -> option error * World := Write.

(** [Process] and then [Write], as the command does. *)
Definition demoRun (ctx : Context) (doAppend : bool) (single : string) (v : XO) (w : World)
  : option error * World :=
  match demoProcess ctx doAppend single v w with
  | (Some e, w') => (Some e, w')
  | (None, w') => demoWrite ctx w'
  end.

(** The process as a run left it, with the output directory as it was
    before the run. *)
Definition sameDirectory (before after : World) : World :=
  mkWorld (templates after) (disk before) [].

(** ** Registry: [Types], [For] and [Flags] *)

Lemma sort_Strings_elem (l : list string) (s : string) : s ∈ sort_Strings l <-> s ∈ l.
Proof. unfold sort_Strings. by rewrite merge_sort_Permutation. Qed.

Lemma Types_elem (templates : Registry) (typ : string) :
  typ ∈ Types templates <-> is_Some (templates !! typ).
Proof.
  unfold Types. rewrite sort_Strings_elem, list_elem_of_fmap. split.
  - intros [[k set] [-> Hin]]. apply elem_of_map_to_list in Hin. by exists set.
  - intros [set Hset]. exists (typ, set). split; [done|]. by apply elem_of_map_to_list.
Qed.

Lemma contains_elem (v : list string) (s : string) : contains v s = true <-> s ∈ v.
Proof.
  induction v as [|z v IH]; simpl.
  - split; [done | by intros ?%not_elem_of_nil].
  - destruct (String.eqb_spec z s) as [->|Hne].
    + split; [intros _; by left | done].
    + rewrite IH. split; [by right | intros Hin].
      apply elem_of_cons in Hin as [?|?]; [congruence | done].
Qed.

Lemma skipped_declaredFor (set : TemplateSet) (name : string) :
  skipped set name = false <-> declaredFor set name.
Proof.
  unfold skipped, declaredFor. destruct (SetFor set) as [l|].
  - rewrite negb_false_iff, contains_elem. split.
    + intros Hin. right. by exists l.
    + intros [?|[l' [[= <-] Hin]]]; done.
  - split; [by left | done].
Qed.

(** For a command name other than "dump", [For] is the test of [Flags]. *)
Lemma For_declaredFor (templates : Registry) (typ name : string) (set : TemplateSet) :
  templates !! typ = Some set -> name <> "dump" ->
  For templates typ name = true <-> declaredFor set name.
Proof.
  intros Hset Hne. unfold For. rewrite Hset.
  destruct (String.eqb_spec name "dump"); [done|].
  rewrite <- skipped_declaredFor. unfold skipped.
  destruct (SetFor set); [|done]. by rewrite negb_false_iff.
Qed.

(** C9, as stated, fails for the command name "dump": [For] answers true
    for the set "json", which declares the command "schema" only, and yet
    [Flags "dump"] leaves the flag of that set out. *)
Lemma Flags_dump_counterexample :
  jsonRegistry !! "json" = Some jsonSet /\
  For jsonRegistry "json" "dump" = true /\
  jsonFlag ∈ SetFlags jsonSet /\
  Flags jsonRegistry "dump" = [].
Proof.
  split_and!; [done | done | by left | by vm_compute].
Qed.

(** C9 (amended): [Flags name] is the union, over the registered sets that
    declare no command names or declare [name] itself, of the flags of the
    set, each tagged with the name the set is registered under and with its
    context key.  The special case of "dump" in [For] has no counterpart in
    [Flags]. *)
Theorem Flags_union (templates : Registry) (name : string) (fs : FlagSet) :
  fs ∈ Flags templates name <->
  exists typ set flag,
    templates !! typ = Some set /\ declaredFor set name /\
    flag ∈ SetFlags set /\ fs = mkFlagSet typ (ContextKey flag) flag.
Proof.
  unfold Flags. rewrite list_elem_of_In, in_flat_map. split.
  - intros (typ & Htyp & Hin). destruct (templates !! typ) as [set|] eqn:Hset; [|done].
    destruct (skipped set name) eqn:Hskip; [done|].
    unfold flagsOf in Hin. apply in_map_iff in Hin as (flag & <- & Hflag).
    exists typ, set, flag. split_and!; [done | by apply skipped_declaredFor | | done].
    by apply list_elem_of_In.
  - intros (typ & set & flag & Hset & Hfor & Hflag & ->).
    exists typ. split.
    + apply list_elem_of_In, Types_elem. by exists set.
    + rewrite Hset. apply skipped_declaredFor in Hfor as ->.
      unfold flagsOf. apply in_map_iff. exists flag. split; [done|].
      by apply list_elem_of_In.
Qed.

(** ** Runs of the methods *)

Section runs.
Context `{host : Host} `{sorter : SortSlice}.

(** The run-scoped fields do not take part in rendering, in seeding a file
    or in naming it. *)
Lemma Exec_frame ctx fs E S : Exec ctx (with_files fs (with_emitted E S)) = Exec ctx S.
Proof. reflexivity. Qed.

Lemma seedOf_frame ctx doAppend fs E S d :
  seedOf ctx doAppend (with_files fs (with_emitted E S)) d = seedOf ctx doAppend S d.
Proof. reflexivity. Qed.

Lemma itemsOf_frame ctx single fs E S :
  itemsOf ctx single (with_files fs (with_emitted E S)) = itemsOf ctx single S.
Proof. reflexivity. Qed.

Lemma set_eta S : with_files (files S) (with_emitted (emitted S) S) = S.
Proof. by destruct S. Qed.

Lemma LoadFile_run ctx file doAppend S d tr :
  LoadFile ctx file doAppend (mkSt S d tr) =
  ((seedOf ctx doAppend S d file).1, mkSt S d (tr ++ (seedOf ctx doAppend S d file).2)).
Proof.
  unfold seedOf, headerOf, LoadFile, bind, getDisk, logOp, getSet, ret, fail. simpl.
  destruct (os_Stat d (filepath_Join (Out ctx) file)) as [|e|isDir]; simpl.
  - destruct (HeaderTemplate S) as [h|]; simpl; [|done].
    destruct (Exec ctx S (h ctx)); done.
  - destruct doAppend; simpl; [done|].
    destruct (HeaderTemplate S) as [h|]; simpl; [|done].
    destruct (Exec ctx S (h ctx)); done.
  - destruct doAppend; simpl.
    + destruct isDir; simpl; [done|].
      destruct (ioutil_ReadFile d (filepath_Join (Out ctx) file)); simpl;
        by rewrite <- app_assoc.
    + destruct (HeaderTemplate S) as [h|]; simpl; [|done].
      destruct (Exec ctx S (h ctx)); done.
Qed.

Lemma mergeInto_run ctx doAppend file buf S d tr :
  mergeInto ctx doAppend file buf (mkSt S d tr) =
  let '(err, fs', tr') := mergeItems (seedOf ctx doAppend S d) [(file, buf)] (files S) tr in
  (resultOf err, mkSt (with_files fs' S) d tr').
Proof.
  unfold mergeInto, bind, getSet, modifySet. simpl.
  destruct (files S !! file) as [f|] eqn:Hf; simpl; [done|].
  rewrite LoadFile_run. destruct (seedOf ctx doAppend S d file) as [[s|e] ops]; simpl.
  - done.
  - by rewrite <- (set_eta S) at 1.
Qed.

Lemma mergeItems_app seed items1 items2 fs tr :
  mergeItems seed (items1 ++ items2) fs tr =
  match mergeItems seed items1 fs tr with
  | (None, fs', tr') => mergeItems seed items2 fs' tr'
  | r => r
  end.
Proof.
  revert fs tr. induction items1 as [|[file buf] items1 IH]; intros fs tr; simpl; [done|].
  destruct (fs !! file); [by apply IH|].
  destruct (seed file) as [[s|e] ops]; [by apply IH | done].
Qed.
Lemma map_filter_through {A B C} (h : A -> C) (g : A -> B) (P : A -> Prop)
      `{forall x, Decision (P x)} (l l' : list A) :
  (forall x y, h x = h y -> g x = g y /\ (P x <-> P y)) ->
  map h l = map h l' -> map g (filter P l) = map g (filter P l').
Proof.
  intros Hh. revert l'. induction l as [|x l IH]; intros [|y l'] Heq; simplify_eq/=; [done|].
  destruct (Hh x y) as [Hg HP]; [done|].
  rewrite !filter_cons.
  destruct (decide (P x)), (decide (P y)); simpl; try tauto; [f_equal; [done|]|]; by apply IH.
Qed.

Lemma itemsOf_app ctx single S l1 l2 :
  itemsOf ctx single S (l1 ++ l2) = itemsOf ctx single S l1 ++ itemsOf ctx single S l2.
Proof. apply map_app. Qed.

Lemma sameFragments_refl E : sameFragments E E.
Proof. done. Qed.

Lemma sameFragments_trans E1 E2 E3 :
  sameFragments E1 E2 -> sameFragments E2 E3 -> sameFragments E1 E3.
Proof. unfold sameFragments. congruence. Qed.

Lemma sameFragments_mark done tpl file rest :
  sameFragments (done ++ tpl :: rest) ((done ++ [with_file file tpl]) ++ rest).
Proof. unfold sameFragments. rewrite <- app_assoc. by rewrite !map_app. Qed.

Lemma sameFragments_items ctx single S order E E' :
  sameFragments E E' ->
  itemsOf ctx single S (visited order E) = itemsOf ctx single S (visited order E').
Proof.
  intros Hs. unfold itemsOf, visited. induction order as [|n order IH]; simpl; [done|].
  rewrite !map_app, IH. f_equal. unfold matching.
  apply (map_filter_through (with_file "")); [|done].
  intros [t1 b1 f1 e1] [t2 b2 f2 e2] [= -> -> ->]. done.
Qed.

Lemma mergeEmitted_run ctx doAppend single n rest :
  forall done S d tr,
    emitted S = done ++ rest ->
    exists E',
      sameFragments (done ++ rest) E' /\
      mergeEmitted ctx doAppend single n done rest (mkSt S d tr) =
      let '(err, fs', tr') :=
        mergeItems (seedOf ctx doAppend S d)
                   (itemsOf ctx single S (matching n rest)) (files S) tr in
      (resultOf err, mkSt (with_files fs' (with_emitted E' S)) d tr').
Proof.
  induction rest as [|tpl rest IH]; intros done S d tr HE.
  - exists (done ++ []). split; [done|]. simpl. unfold ret. by rewrite <- HE, set_eta.
  - simpl. unfold matching. rewrite filter_cons.
    destruct (String.eqb_spec (tTemplate (descr tpl)) n) as [Hn|Hn]; simpl.
    + rewrite decide_True by done. simpl.
      unfold bind at 1, getSet at 1. unfold bind at 1, modifySet at 1. simpl.
      unfold bind at 1. rewrite mergeInto_run. simpl.
      set (tpl' := with_file (fileOf ctx single S tpl) tpl).
      change (seedOf ctx doAppend (with_emitted (done ++ tpl' :: rest) S) d)
        with (seedOf ctx doAppend S d).
      destruct (files S !! fileOf ctx single S tpl) as [f|] eqn:Hf.
      * edestruct (IH (done ++ [tpl'])) as (E' & Hsame & ->).
        { simpl. by rewrite <- app_assoc. }
        exists E'. split; [|done].
        eapply sameFragments_trans; [apply sameFragments_mark | exact Hsame].
      * destruct (seedOf ctx doAppend S d (fileOf ctx single S tpl)) as [[s|e] ops] eqn:Hseed.
        -- edestruct (IH (done ++ [tpl'])) as (E' & Hsame & ->).
           { simpl. by rewrite <- app_assoc. }
           exists E'. split; [|done].
           eapply sameFragments_trans; [apply sameFragments_mark | exact Hsame].
        -- exists (done ++ tpl' :: rest). split; [|done].
           unfold sameFragments. by rewrite !map_app.
    + rewrite decide_False by done.
      edestruct (IH (done ++ [tpl])) as (E' & Hsame & ->).
      { by rewrite <- app_assoc. }
      exists E'. split; [|done]. by rewrite <- app_assoc in Hsame.
Qed.

Lemma mergeOrder_run ctx doAppend single order :
  forall S d tr,
    exists E',
      sameFragments (emitted S) E' /\
      mergeOrder ctx doAppend single order (mkSt S d tr) =
      let '(err, fs', tr') :=
        mergeItems (seedOf ctx doAppend S d)
                   (itemsOf ctx single S (visited order (emitted S))) (files S) tr in
      (resultOf err, mkSt (with_files fs' (with_emitted E' S)) d tr').
Proof.
  induction order as [|n order IH]; intros S d tr.
  - exists (emitted S). split; [done|]. simpl. unfold ret. by rewrite set_eta.
  - simpl. unfold bind at 1, getSet at 1. simpl. unfold bind at 1.
    destruct (mergeEmitted_run ctx doAppend single n (emitted S) [] S d tr)
      as (E1 & Hsame1 & ->); [done|].
    change (visited (n :: order) (emitted S))
      with (matching n (emitted S) ++ visited order (emitted S)).
    rewrite itemsOf_app, mergeItems_app.
    destruct (mergeItems (seedOf ctx doAppend S d)
                (itemsOf ctx single S (matching n (emitted S))) (files S) tr)
      as [[[e|] fs1] tr1] eqn:Hrun; simpl.
    + by exists E1.
    + destruct (IH (with_files fs1 (with_emitted E1 S)) d tr1) as (E' & Hsame & ->).
      simpl in Hsame. exists E'. split.
      { eapply sameFragments_trans; [exact Hsame1 | exact Hsame]. }
      simpl emitted. simpl files.
      change (seedOf ctx doAppend (with_files fs1 (with_emitted E1 S)) d)
        with (seedOf ctx doAppend S d).
      change (itemsOf ctx single (with_files fs1 (with_emitted E1 S)))
        with (itemsOf ctx single S).
      by rewrite <- (sameFragments_items ctx single S order _ _ Hsame1).
Qed.
Lemma bufsFor_cons file f buf items :
  bufsFor file ((f, buf) :: items) =
  if decide (f = file) then buf :: bufsFor file items else bufsFor file items.
Proof. unfold bufsFor. rewrite filter_cons. simpl. by destruct (decide (f = file)). Qed.

Lemma bufsFor_itemsOf ctx single S file l :
  bufsFor file (itemsOf ctx single S l) = map eBuf (destined ctx single S file l).
Proof.
  unfold destined, itemsOf. induction l as [|t l IH]; [done|].
  simpl. rewrite bufsFor_cons, filter_cons.
  destruct (decide (fileOf ctx single S t = file)); simpl; by rewrite IH.
Qed.

Lemma mergeItems_ok seed items :
  forall fs tr fs' tr',
    mergeItems seed items fs tr = (None, fs', tr') ->
    forall file, fs' !! file = mergedEntry seed fs items file.
Proof.
  unfold mergedEntry.
  induction items as [|[f buf] items IH]; intros fs tr fs' tr' Hrun file.
  - simpl in Hrun. injection Hrun as <- <-. simpl.
    destruct (fs !! file) as [[t bf fl er]|]; [|done].
    unfold with_buf. simpl. by rewrite app_nil_r.
  - simpl in Hrun. rewrite bufsFor_cons.
    destruct (fs !! f) as [e0|] eqn:Hf.
    + rewrite (IH _ _ _ _ Hrun file). destruct (decide (f = file)) as [->|Hne].
      * rewrite lookup_insert_eq, Hf. unfold with_buf. simpl. by rewrite <- app_assoc.
      * by rewrite lookup_insert_ne.
    + destruct (seed f) as [[s|e] ops] eqn:Hseed; [|done].
      rewrite (IH _ _ _ _ Hrun file). destruct (decide (f = file)) as [->|Hne].
      * rewrite lookup_insert_eq, Hf, Hseed. unfold with_buf. simpl.
        by rewrite <- app_assoc.
      * by rewrite lookup_insert_ne.
Qed.
Lemma mergeItems_seeded seed items :
  forall fs tr fs' tr',
    mergeItems seed items fs tr = (None, fs', tr') ->
    forall file buf,
      (file, buf) ∈ items -> fs !! file = None ->
      exists s ops, seed file = (Ok s, ops).
Proof.
  induction items as [|[f0 b0] items IH]; intros fs tr fs' tr' Hrun file buf Hin Hnone.
  - by apply not_elem_of_nil in Hin.
  - simpl in Hrun. destruct (decide (file = f0)) as [->|Hne].
    + rewrite Hnone in Hrun. destruct (seed f0) as [[s|e] ops]; [by eauto | done].
    + apply elem_of_cons in Hin as [[= ? ?]|Hin]; [done|].
      destruct (fs !! f0) as [e0|].
      * eapply IH; [exact Hrun | exact Hin |]. by rewrite lookup_insert_ne.
      * destruct (seed f0) as [[s|e] ops]; [|done].
        eapply IH; [exact Hrun | exact Hin |]. by rewrite lookup_insert_ne.
Qed.

(** The seed [LoadFile] gives when it gives one. *)
Lemma seedOf_ok ctx doAppend S (d : Disk) file seed ops :
  seedOf ctx doAppend S d file = (Ok seed, ops) ->
  match (if doAppend then d !! filepath_Join (Out ctx) file else None) with
  | Some (Regular content) => seed = content
  | Some _ => False
  | None => headerOf ctx S = Ok seed
  end.
Proof.
  unfold seedOf, os_Stat, ioutil_ReadFile.
  destruct (d !! filepath_Join (Out ctx) file) as [[|content|]|]; destruct doAppend;
    simpl; intros [= ? ?]; done.
Qed.

Lemma BuildFuncs_run ctx S d tr :
  BuildFuncs ctx (mkSt S d tr) =
  ((buildResult ctx S).1, mkSt (with_funcs (buildResult ctx S).2 S) d tr).
Proof.
  unfold buildResult, BuildFuncs, AddCustomFuncs, bind, getSet, modifySet, ret, fail. simpl.
  destruct (source ctx _ "funcs.go.tpl") as [|e|[buf|e]]; simpl; try done.
  destruct (UseStdlib _); simpl; [done|].
  destruct (UseSyscall _); simpl; [done|].
  destruct (UseUnsafe _); simpl; [done|].
  destruct (UseSymbols _ _); simpl; [done|].
  destruct (EvalSrc _ _); simpl; [done|].
  destruct (EvalInit _ _) as [[z|has]|e]; simpl; try done.
  destruct (z ctx); done.
Qed.

Lemma emitAll_ok ctx l :
  forall S d tr,
    forallb (renders ctx S) l = true ->
    emitAll ctx l (mkSt S d tr) =
    (Ok tt, mkSt (with_emitted (emitted S ++ map (frag ctx S) l) S) d tr).
Proof.
  induction l as [|t l IH]; intros S d tr Hall; simpl.
  - unfold ret. rewrite app_nil_r. by destruct S.
  - simpl in Hall. apply andb_true_iff in Hall as [Ht Hl]. unfold renders in Ht.
    unfold bind at 1. unfold Emit. unfold bind at 1. unfold getSet, modifySet. simpl.
    unfold frag at 1. destruct (Exec ctx S t) as [buf|e]; [|done]. simpl.
    rewrite IH by done. simpl. by rewrite <- app_assoc.
Qed.

Lemma emitAll_fail ctx l :
  forall S d tr,
    forallb (renders ctx S) l = false ->
    exists e st', emitAll ctx l (mkSt S d tr) = (Err e, st').
Proof.
  induction l as [|t l IH]; intros S d tr Hall; simpl in *; [done|].
  unfold renders in Hall at 1.
  unfold bind at 1. unfold Emit. unfold bind at 1. unfold getSet, modifySet, fail. simpl.
  destruct (Exec ctx S t) as [buf|e] eqn:Ht; simpl in *; [|by eauto].
  by apply IH.
Qed.

Lemma emitPackage_ok ctx l :
  forall additional S d tr,
    forallb (renders ctx S) l = true ->
    emitPackage ctx l additional (mkSt S d tr) =
    (Ok (additional ++ map tTemplate l),
     mkSt (with_emitted (emitted S ++ map (frag ctx S) l) S) d tr).
Proof.
  induction l as [|t l IH]; intros additional S d tr Hall; simpl.
  - unfold ret. rewrite !app_nil_r. by destruct S.
  - simpl in Hall. apply andb_true_iff in Hall as [Ht Hl]. unfold renders in Ht.
    unfold bind at 1. unfold Emit. unfold bind at 1. unfold getSet, modifySet. simpl.
    unfold frag at 1. destruct (Exec ctx S t) as [buf|e]; [|done]. simpl.
    rewrite IH by done. simpl. by rewrite <- !app_assoc.
Qed.

Lemma emitPackage_fail ctx l :
  forall additional S d tr,
    forallb (renders ctx S) l = false ->
    exists e st', emitPackage ctx l additional (mkSt S d tr) = (Err e, st').
Proof.
  induction l as [|t l IH]; intros additional S d tr Hall; simpl in *; [done|].
  unfold renders in Hall at 1.
  unfold bind at 1. unfold Emit. unfold bind at 1. unfold getSet, modifySet, fail. simpl.
  destruct (Exec ctx S t) as [buf|e] eqn:Ht; simpl in *; [|by eauto].
  by apply IH.
Qed.
Lemma packageOrder_ok ctx doAppend S d tr :
  forallb (renders ctx S) (packageDescrs S ctx doAppend) = true ->
  packageOrder ctx doAppend (mkSt S d tr) =
  (Ok (finalOrder S ctx doAppend),
   mkSt (with_emitted (emitted S ++ map (frag ctx S) (packageDescrs S ctx doAppend)) S) d tr).
Proof.
  unfold packageOrder, packageDescrs, finalOrder, bind, getSet, ret. simpl.
  destruct (PackageTemplates S) as [pkg|]; simpl.
  - destruct doAppend; simpl.
    + intros _. rewrite app_nil_r. by destruct S.
    + intros Hall. by rewrite emitPackage_ok.
  - intros _. rewrite app_nil_r. by destruct S.
Qed.

Lemma packageOrder_fail ctx doAppend S d tr :
  forallb (renders ctx S) (packageDescrs S ctx doAppend) = false ->
  exists e st', packageOrder ctx doAppend (mkSt S d tr) = (Err e, st').
Proof.
  unfold packageOrder, packageDescrs, bind, getSet, ret. simpl.
  destruct (PackageTemplates S) as [pkg|]; simpl; [|done].
  destruct doAppend; simpl; [done|]. intros Hall.
  destruct (emitPackage_fail ctx (pkg ctx) [] S d tr Hall) as (e & st' & ->). eauto.
Qed.

Lemma processSet_run ctx doAppend single v S d tr :
  let ctx' := runContext S ctx in
  let S1 := with_funcs (buildResult ctx' S).2 S in
  let g := SetProcess S ctx' doAppend v in
  let sorted := sortEmitted (emitted S ++ map (frag ctx' S1) (genEmits g)) in
  let pkgs := map (frag ctx' S1) (packageDescrs S ctx' doAppend) in
  let order := finalOrder S ctx' doAppend in
  (buildResult ctx' S).1 = Ok tt ->
  forallb (renders ctx' S1) (genEmits g) = true ->
  genErr g = None ->
  forallb (renders ctx' S1) (packageDescrs S ctx' doAppend) = true ->
  exists E',
    sameFragments (sorted ++ pkgs) E' /\
    processSet ctx doAppend single v (mkSt S d tr) =
    let '(err, fs', tr') :=
      mergeItems (seedOf ctx' doAppend S1 d)
                 (itemsOf ctx' single S1 (visited order (sorted ++ pkgs))) ∅ tr in
    (resultOf err, mkSt (with_files fs' (with_emitted E' S1)) d tr').
Proof.
  intros ctx' S1 g sorted pkgs order Hbuild Hgen Herr Hpkg.
  unfold processSet. unfold bind at 1, getSet at 1. cbn [st_set]. fold ctx'.
  unfold bind at 1, wrap. rewrite BuildFuncs_run, Hbuild. fold S1. cbn [fst].
  unfold bind at 1, generate. unfold bind at 1, getSet at 1. cbn [st_set].
  change (SetProcess S1) with (SetProcess S). fold g.
  unfold bind at 1. rewrite emitAll_ok by done. rewrite Herr. unfold ret at 1.
  unfold bind at 1, modifySet at 1. cbn [st_set st_disk st_trace].
  change (emitted (with_emitted ?l S1)) with l. change (emitted S1) with (emitted S).
  fold sorted.
  unfold bind at 1. rewrite packageOrder_ok by done.
  unfold mergeFiles, bind at 1, modifySet at 1. cbn [st_set st_disk st_trace].
  destruct (mergeOrder_run ctx' doAppend single order
              (with_files ∅ (with_emitted (sorted ++ pkgs) S1)) d tr)
    as (E' & Hsame & Hrun).
  exists E'. split; [done|]. exact Hrun.
Qed.
Lemma processSet_sorted ctx doAppend single v S d tr :
  (buildResult (runContext S ctx) S).1 = Ok tt ->
  forallb (renders (runContext S ctx) (builtSet ctx S))
          (genEmits (SetProcess S (runContext S ctx) doAppend v)) = true ->
  genErr (SetProcess S (runContext S ctx) doAppend v) = None ->
  processSet ctx doAppend single v (mkSt S d tr) =
  (order <- packageOrder (runContext S ctx) doAppend ;;
   mergeFiles (runContext S ctx) doAppend single order)
    (mkSt (with_emitted (sortedOf ctx doAppend v S) (builtSet ctx S)) d tr).
Proof.
  intros Hbuild Hgen Herr.
  unfold processSet. unfold bind at 1, getSet at 1. cbn [st_set].
  unfold bind at 1, wrap. rewrite BuildFuncs_run, Hbuild. cbn [fst].
  fold (builtSet ctx S).
  unfold bind at 1, generate. unfold bind at 1, getSet at 1. cbn [st_set].
  change (SetProcess (builtSet ctx S)) with (SetProcess S).
  unfold bind at 1. rewrite emitAll_ok by done. rewrite Herr. unfold ret at 1.
  unfold bind at 1, modifySet at 1. cbn [st_set st_disk st_trace].
  reflexivity.
Qed.

Lemma processSet_merge ctx doAppend single v S d tr :
  (buildResult (runContext S ctx) S).1 = Ok tt ->
  forallb (renders (runContext S ctx) (builtSet ctx S))
          (genEmits (SetProcess S (runContext S ctx) doAppend v)) = true ->
  genErr (SetProcess S (runContext S ctx) doAppend v) = None ->
  forallb (renders (runContext S ctx) (builtSet ctx S))
          (packageDescrs S (runContext S ctx) doAppend) = true ->
  processSet ctx doAppend single v (mkSt S d tr) =
  mergeOrder (runContext S ctx) doAppend single (finalOrder S (runContext S ctx) doAppend)
    (mkSt (with_files ∅ (with_emitted (sortedOf ctx doAppend v S ++ packaged ctx doAppend S)
                                      (builtSet ctx S))) d tr).
Proof.
  intros Hbuild Hgen Herr Hpkg. rewrite processSet_sorted by done.
  unfold bind at 1. rewrite packageOrder_ok by done.
  unfold mergeFiles, bind at 1, modifySet at 1. cbn [st_set st_disk st_trace].
  reflexivity.
Qed.

Lemma buildResult_forgets ctx S fs m :
  buildResult ctx (with_funcs m (with_files fs S)) = buildResult ctx S.
Proof.
  unfold buildResult, BuildFuncs, AddCustomFuncs, bind, getSet, modifySet, ret, fail.
  cbn [st_set].
  change (source ctx (with_funcs ?m0 (with_funcs m (with_files fs S)))) with (source ctx S).
  change (source ctx (with_funcs ?m0 S)) with (source ctx S).
  destruct (source ctx S "funcs.go.tpl") as [|e|[buf|e]]; try done.
  destruct (UseStdlib _); [done|].
  destruct (UseSyscall _); [done|].
  destruct (UseUnsafe _); [done|].
  destruct (UseSymbols _ _); [done|].
  destruct (EvalSrc _ _); [done|].
  destruct (EvalInit _ _) as [[z|has]|e]; try done.
  destruct (z ctx); done.
Qed.

(** The merge does not look at the generation logic of the set. *)
Lemma mergeEmitted_process g ctx doAppend single n rest :
  forall seen S d tr,
    mergeEmitted ctx doAppend single n seen rest (mkSt (with_process g S) d tr) =
    let '(r, st) := mergeEmitted ctx doAppend single n seen rest (mkSt S d tr) in
    (r, onSt (with_process g) st).
Proof.
  induction rest as [|tpl rest IH]; intros seen S d tr; [done|].
  cbn [mergeEmitted]. destruct (negb _); [apply IH|].
  unfold bind at 1 4, getSet at 1 2. cbn [st_set].
  unfold bind at 1 3, modifySet at 1 2. cbn [st_set st_disk st_trace].
  unfold bind at 1 2. rewrite !mergeInto_run.
  change (fileOf ctx single (with_process g S)) with (fileOf ctx single S).
  change (seedOf ctx doAppend (with_emitted ?E (with_process g S)) d)
    with (seedOf ctx doAppend (with_emitted E S) d).
  change (files (with_emitted ?E (with_process g S))) with (files (with_emitted E S)).
  destruct (mergeItems _ _ _ _) as [[[e|] fs'] tr']; [done|].
  cbn [resultOf].
  change (with_files fs' (with_emitted ?E (with_process g S)))
    with (with_process g (with_files fs' (with_emitted E S))).
  apply IH.
Qed.

Lemma mergeOrder_process g ctx doAppend single order :
  forall S d tr,
    mergeOrder ctx doAppend single order (mkSt (with_process g S) d tr) =
    let '(r, st) := mergeOrder ctx doAppend single order (mkSt S d tr) in
    (r, onSt (with_process g) st).
Proof.
  induction order as [|n order IH]; intros S d tr; [done|].
  cbn [mergeOrder]. unfold bind at 1 3, getSet at 1 2. cbn [st_set].
  unfold bind at 1 2. change (emitted (with_process g S)) with (emitted S).
  rewrite mergeEmitted_process.
  destruct (mergeEmitted ctx doAppend single n [] (emitted S) (mkSt S d tr))
    as [[[]|e] [S1 d1 tr1]]; [|done].
  apply IH.
Qed.

Lemma buildResult_process g ctx S :
  buildResult ctx (with_process g S) = buildResult ctx S.
Proof.
  unfold buildResult, BuildFuncs, AddCustomFuncs, bind, getSet, modifySet, ret, fail.
  cbn [st_set].
  change (source ctx (with_funcs ?m0 (with_process g S))) with (source ctx S).
  change (source ctx (with_funcs ?m0 S)) with (source ctx S).
  destruct (source ctx S "funcs.go.tpl") as [|e|[buf|e]]; try done.
  destruct (UseStdlib _); [done|].
  destruct (UseSyscall _); [done|].
  destruct (UseUnsafe _); [done|].
  destruct (UseSymbols _ _); [done|].
  destruct (EvalSrc _ _); [done|].
  destruct (EvalInit _ _) as [[z|has]|e]; try done.
  destruct (z ctx); done.
Qed.

Lemma processSet_ok ctx doAppend single v S d tr st' :
  let ctx' := runContext S ctx in
  let S1 := with_funcs (buildResult ctx' S).2 S in
  let g := SetProcess S ctx' doAppend v in
  processSet ctx doAppend single v (mkSt S d tr) = (Ok tt, st') ->
  (buildResult ctx' S).1 = Ok tt /\
  forallb (renders ctx' S1) (genEmits g) = true /\
  genErr g = None /\
  forallb (renders ctx' S1) (packageDescrs S ctx' doAppend) = true.
Proof.
  intros ctx' S1 g. unfold processSet. unfold bind at 1, getSet at 1. cbn [st_set]. fold ctx'.
  unfold bind at 1, wrap. rewrite BuildFuncs_run. fold S1. cbn [fst].
  destruct (buildResult ctx' S).1 as [[]|e] eqn:Hbuild; [|done].
  unfold bind at 1, generate. unfold bind at 1, getSet at 1. cbn [st_set].
  change (SetProcess S1) with (SetProcess S). fold g.
  unfold bind at 1.
  destruct (forallb (renders ctx' S1) (genEmits g)) eqn:Hgen.
  2:{ destruct (emitAll_fail ctx' _ S1 d tr Hgen) as (e & st0 & ->). done. }
  rewrite emitAll_ok by done.
  destruct (genErr g) as [e|] eqn:Herr; [done|]. unfold ret at 1.
  unfold bind at 1, modifySet at 1. cbn [st_set st_disk st_trace].
  unfold bind at 1.
  match goal with
  | |- context [packageOrder ctx' doAppend (mkSt ?S2 _ _)] =>
      change (packageDescrs S ctx' doAppend) with (packageDescrs S2 ctx' doAppend);
      change (renders ctx' S1) with (renders ctx' S2);
      destruct (forallb (renders ctx' S2) (packageDescrs S2 ctx' doAppend)) eqn:Hpkg
  end.
  - done.
  - destruct (packageOrder_fail ctx' doAppend _ d tr Hpkg) as (e & st0 & ->). done.
Qed.
End runs.

(** ** Runs of [Write] and [WriteFiles] *)

Section write_runs.
Context `{host : Host} `{sorter : SortSlice}.

Lemma fileNames_NoDup S : NoDup (fileNames S).
Proof.
  unfold fileNames, sort_Strings. rewrite merge_sort_Permutation.
  apply NoDup_fst_map_to_list.
Qed.

Lemma fileNames_elem S file : file ∈ fileNames S <-> is_Some (files S !! file).
Proof.
  unfold fileNames. rewrite sort_Strings_elem, list_elem_of_fmap. split.
  - intros [[k e] [-> Hin]]. apply elem_of_map_to_list in Hin. by exists e.
  - intros [e He]. exists (file, e). split; [done|]. by apply elem_of_map_to_list.
Qed.

Lemma filepath_Join_inj out file1 file2 :
  filepath_Join out file1 = filepath_Join out file2 -> file1 = file2.
Proof.
  unfold filepath_Join. destruct (String.eqb out ""); [done|].
  intros Heq. by apply String.app_inj, String.app_inj in Heq.
Qed.

Lemma with_files_eta S : with_files (files S) S = S.
Proof. by destruct S. Qed.

(** The loop of [Write] over a list of distinct names. *)
Lemma forEach_postFile post ctx l :
  forall S d tr,
    Post S = Some post -> NoDup l ->
    exists fs',
      forEach l (postFile post ctx) (mkSt S d tr) = (Ok tt, mkSt (with_files fs' S) d tr) /\
      forall file,
        fs' !! file =
        if decide (file ∈ l) then posted S ctx file <$> files S !! file
        else files S !! file.
Proof.
  induction l as [|a l IH]; intros S d tr Hpost Hnd.
  - exists (files S). split.
    { simpl. unfold ret. by rewrite with_files_eta. }
    intros file. rewrite decide_False; [done|]. apply not_elem_of_nil.
  - apply NoDup_cons in Hnd as [Ha Hnd]. cbn [forEach].
    unfold bind at 1, postFile at 1. unfold bind at 1, getSet at 1. cbn [st_set].
    destruct (files S !! a) as [e|] eqn:He.
    + assert (exists e', (match post ctx (eBuf e) with
                          | Ok buf =>
                              modifySet (fun s => with_files (<[a:=with_buf buf e]> (files s)) s)
                          | Err err =>
                              modifySet (fun s =>
                                with_files (<[a:=with_err (eErr e ++ [ErrPostFailed a err]) e]>
                                              (files s)) s)
                          end) (mkSt S d tr) =
                         (Ok tt, mkSt (with_files (<[a:=e']> (files S)) S) d tr) /\
                         e' = posted S ctx a e) as (e' & -> & He').
      { unfold posted. rewrite Hpost. destruct (post ctx (eBuf e)); eauto. }
      destruct (IH (with_files (<[a:=e']> (files S)) S) d tr Hpost Hnd) as (fs' & -> & Hfs).
      exists fs'. split; [done|]. intros file. rewrite Hfs. cbn [files with_files].
      change (posted (with_files (<[a:=e']> (files S)) S)) with (posted S).
      destruct (decide (file = a)) as [->|Hne].
      * rewrite decide_False by done. rewrite decide_True by (by left).
        by rewrite lookup_insert_eq, He, He'.
      * rewrite lookup_insert_ne by done.
        destruct (decide (file ∈ l)) as [Hin|Hin].
        -- rewrite decide_True; [done | by right].
        -- rewrite decide_False; [done|]. by intros [?|?]%elem_of_cons.
    + unfold ret at 1. destruct (IH S d tr Hpost Hnd) as (fs' & -> & Hfs).
      exists fs'. split; [done|]. intros file. rewrite Hfs.
      destruct (decide (file = a)) as [->|Hne].
      * rewrite decide_False by done. rewrite decide_True by (by left). by rewrite He.
      * destruct (decide (file ∈ l)) as [Hin|Hin].
        -- rewrite decide_True; [done | by right].
        -- rewrite decide_False; [done|]. by intros [?|?]%elem_of_cons.
Qed.
Lemma ioutil_WriteFile_cases (d : Disk) name buf :
  (exists err, ioutil_WriteFile d name buf = Err err /\
               forall d2 : Disk, d2 !! name = d !! name ->
                                 ioutil_WriteFile d2 name buf = Err err) \/
  (ioutil_WriteFile d name buf = Ok (<[name := Regular buf]> d) /\
   forall d2 : Disk, d2 !! name = d !! name ->
                     ioutil_WriteFile d2 name buf = Ok (<[name := Regular buf]> d2)).
Proof.
  unfold ioutil_WriteFile. destruct (d !! name) as [[|content|]|] eqn:Hd.
  - left. eexists. split; [done|]. by intros d2 ->.
  - right. split; [done|]. by intros d2 ->.
  - left. eexists. split; [done|]. by intros d2 ->.
  - right. split; [done|]. by intros d2 ->.
Qed.

Lemma persisted_disk (d1 d2 : Disk) ctx file e :
  d1 !! filepath_Join (Out ctx) file = d2 !! filepath_Join (Out ctx) file ->
  persisted d1 ctx file e = persisted d2 ctx file e.
Proof.
  intros Hd. unfold persisted.
  destruct (ioutil_WriteFile_cases d2 (filepath_Join (Out ctx) file) (eBuf e))
    as [(err & -> & H2)|[-> H2]]; by rewrite (H2 d1 Hd).
Qed.

Lemma onDisk_disk (d1 d2 : Disk) ctx file e :
  d1 !! filepath_Join (Out ctx) file = d2 !! filepath_Join (Out ctx) file ->
  onDisk d1 ctx file e = onDisk d2 ctx file e.
Proof.
  intros Hd. unfold onDisk.
  destruct (ioutil_WriteFile_cases d2 (filepath_Join (Out ctx) file) (eBuf e))
    as [(err & -> & H2)|[-> H2]]; by rewrite (H2 d1 Hd).
Qed.

(** The loop of [WriteFiles] over a list of distinct names: every file
    gets its own outcome, the path of every file written holds its bytes,
    and no other path changes. *)
Lemma forEach_writeFile ctx l :
  forall S (d : Disk) tr,
    NoDup l ->
    exists fs' (d' : Disk) tr',
      forEach l (writeFile ctx) (mkSt S d tr) = (Ok tt, mkSt (with_files fs' S) d' tr') /\
      (forall file,
          fs' !! file =
          if decide (file ∈ l) then persisted d ctx file <$> files S !! file
          else files S !! file) /\
      (forall file e,
          file ∈ l -> files S !! file = Some e ->
          d' !! filepath_Join (Out ctx) file = onDisk d ctx file e) /\
      (forall p,
          (forall file, file ∈ l -> is_Some (files S !! file) ->
                        filepath_Join (Out ctx) file <> p) ->
          d' !! p = d !! p).
Proof.
  induction l as [|a l IH]; intros S d tr Hnd.
  - exists (files S), d, tr. split_and!.
    + simpl. unfold ret. by rewrite with_files_eta.
    + intros file. rewrite decide_False; [done|]. apply not_elem_of_nil.
    + by intros file e ?%not_elem_of_nil.
    + done.
  - apply NoDup_cons in Hnd as [Ha Hnd]. cbn [forEach].
    unfold bind at 1, writeFile at 1. unfold bind at 1, getSet at 1. cbn [st_set].
    destruct (files S !! a) as [e|] eqn:He.
    + unfold bind at 1, getDisk at 1. cbn [st_disk].
      unfold bind at 1, logOp at 1. cbn [st_set st_disk st_trace].
      destruct (ioutil_WriteFile_cases d (filepath_Join (Out ctx) a) (eBuf e))
        as [(err & Hw & Hw2)|[Hw Hw2]]; rewrite Hw.
      * unfold modifySet at 1. cbn [st_set st_disk st_trace].
        set (fs1 := <[a:=with_err (eErr e ++ [err]) e]> (files S)).
        destruct (IH (with_files fs1 S) d (tr ++ [OpWriteFile (filepath_Join (Out ctx) a) (eBuf e)])
                     Hnd) as (fs' & d' & tr' & -> & Hfs & Hdisk & Hrest).
        cbn [files with_files] in Hfs, Hdisk, Hrest.
        assert (forall file, file ∈ l -> fs1 !! file = files S !! file) as Hfs1.
        { intros file Hin. unfold fs1. rewrite lookup_insert_ne; [done|]. by intros ->. }
        exists fs', d', tr'. split_and!; [done|..].
        -- intros file. rewrite Hfs. destruct (decide (file = a)) as [->|Hne].
           ++ rewrite decide_False by done. rewrite decide_True by (by left).
              unfold fs1. rewrite lookup_insert_eq, He. simpl. unfold persisted. by rewrite Hw.
           ++ unfold fs1. rewrite lookup_insert_ne by done.
              destruct (decide (file ∈ l)) as [Hin|Hin].
              ** rewrite decide_True; [done | by right].
              ** rewrite decide_False; [done|]. by intros [?|?]%elem_of_cons.
        -- intros file e0 [->|Hin]%elem_of_cons He0.
           ++ rewrite He in He0. injection He0 as <-. unfold onDisk. rewrite Hw.
              apply Hrest. intros file Hin _ Heq. apply filepath_Join_inj in Heq as ->. done.
           ++ apply Hdisk; [done|]. by rewrite Hfs1.
        -- intros p Hp. apply Hrest. intros file Hin Hsome. apply Hp; [by right|].
           by rewrite <- Hfs1.
      * unfold putDisk at 1. cbn [st_set st_disk st_trace].
        set (d1 := <[filepath_Join (Out ctx) a:=Regular (eBuf e)]> d).
        destruct (IH S d1 (tr ++ [OpWriteFile (filepath_Join (Out ctx) a) (eBuf e)]) Hnd)
          as (fs' & d' & tr' & -> & Hfs & Hdisk & Hrest).
        assert (forall file, file ∈ l ->
                  d1 !! filepath_Join (Out ctx) file = d !! filepath_Join (Out ctx) file)
          as Hd1.
        { intros file Hin. unfold d1. rewrite lookup_insert_ne; [done|].
          intros Heq. apply filepath_Join_inj in Heq as ->. done. }
        exists fs', d', tr'. split_and!; [done|..].
        -- intros file. rewrite Hfs. destruct (decide (file = a)) as [->|Hne].
           ++ rewrite decide_False by done. rewrite decide_True by (by left).
              rewrite He. simpl. unfold persisted. by rewrite Hw.
           ++ destruct (decide (file ∈ l)) as [Hin|Hin].
              ** rewrite decide_True by (by right).
                 destruct (files S !! file) as [e0|]; [|done]. simpl.
                 f_equal. apply persisted_disk. by apply Hd1.
              ** rewrite decide_False; [done|]. by intros [?|?]%elem_of_cons.
        -- intros file e0 [->|Hin]%elem_of_cons He0.
           ++ rewrite He in He0. injection He0 as <-. unfold onDisk. rewrite Hw.
              rewrite Hrest.
              ** unfold d1. by rewrite lookup_insert_eq.
              ** intros file Hin _ Heq. apply filepath_Join_inj in Heq as ->. done.
           ++ rewrite (Hdisk file e0 Hin He0). apply onDisk_disk. by apply Hd1.
        -- intros p Hp. rewrite Hrest.
           ++ unfold d1. rewrite lookup_insert_ne; [done|].
              apply Hp; [by left | by rewrite He].
           ++ intros file Hin Hsome. apply Hp; [by right | done].
    + unfold ret at 1. destruct (IH S d tr Hnd) as (fs' & d' & tr' & -> & Hfs & Hdisk & Hrest).
      exists fs', d', tr'. split_and!; [done|..].
      * intros file. rewrite Hfs. destruct (decide (file = a)) as [->|Hne].
        -- rewrite decide_False by done. rewrite decide_True by (by left). by rewrite He.
        -- destruct (decide (file ∈ l)) as [Hin|Hin].
           ++ rewrite decide_True; [done | by right].
           ++ rewrite decide_False; [done|]. by intros [?|?]%elem_of_cons.
      * intros file e0 [->|Hin]%elem_of_cons He0; [congruence|]. by apply Hdisk.
      * intros p Hp. apply Hrest. intros file Hin Hsome. apply Hp; [by right | done].
Qed.
Lemma writeFilesSet_run ctx S (d : Disk) tr :
  exists fs' (d' : Disk) tr',
    writeFilesSet ctx (mkSt S d tr) = (Ok tt, mkSt (with_files fs' S) d' tr') /\
    (forall file, fs' !! file = persisted d ctx file <$> files S !! file) /\
    (forall file e,
        files S !! file = Some e ->
        d' !! filepath_Join (Out ctx) file = onDisk d ctx file e).
Proof.
  unfold writeFilesSet, bind, getSet. cbn [st_set].
  destruct (forEach_writeFile ctx (fileNames S) S d tr (fileNames_NoDup S))
    as (fs' & d' & tr' & -> & Hfs & Hdisk & _).
  exists fs', d', tr'. split_and!; [done|..].
  - intros file. rewrite Hfs. destruct (decide (file ∈ fileNames S)) as [Hin|Hin]; [done|].
    rewrite fileNames_elem in Hin. destruct (files S !! file); [|done].
    exfalso. apply Hin. by eexists.
  - intros file e He. apply Hdisk; [|done]. apply fileNames_elem. by eexists.
Qed.

Lemma postFiles_run post ctx S (d : Disk) tr :
  Post S = Some post ->
  exists fs',
    forEach (fileNames S) (postFile post ctx) (mkSt S d tr) =
      (Ok tt, mkSt (with_files fs' S) d tr) /\
    forall file, fs' !! file = posted S ctx file <$> files S !! file.
Proof.
  intros Hpost.
  destruct (forEach_postFile post ctx (fileNames S) S d tr Hpost (fileNames_NoDup S))
    as (fs' & -> & Hfs).
  exists fs'. split; [done|].
  intros file. rewrite Hfs. destruct (decide (file ∈ fileNames S)) as [Hin|Hin]; [done|].
  rewrite fileNames_elem in Hin. destruct (files S !! file); [|done].
  exfalso. apply Hin. by eexists.
Qed.

End write_runs.

(** ** Properties of [Process] *)

Section process_facts.
Context `{host : Host} `{sorter : SortSlice}.

(** A run of [Process] that returns no error, in terms of its pieces. *)
Lemma Process_ok ctx doAppend single v w w' S :
  templates w !! TemplateType ctx = Some S ->
  Process ctx doAppend single v w = (None, w') ->
  exists E' fs' tr',
    sameFragments (sortedOf ctx doAppend v S ++ packaged ctx doAppend S) E' /\
    mergeItems (seedOf (runContext S ctx) doAppend (builtSet ctx S) (disk w))
               (itemsOf (runContext S ctx) single (builtSet ctx S) (mergedOf ctx doAppend v S))
               ∅ (trace w) = (None, fs', tr') /\
    w' = mkWorld (<[TemplateType ctx := with_files fs' (with_emitted E' (builtSet ctx S))]>
                    (templates w)) (disk w) tr'.
Proof.
  intros HS Hrun. unfold Process, onSet in Hrun. rewrite HS in Hrun.
  destruct (processSet ctx doAppend single v (mkSt S (disk w) (trace w)))
    as [[[]|e] st] eqn:Hset; [|done].
  simpl in Hrun. injection Hrun as <-.
  destruct (processSet_ok _ _ _ _ _ _ _ _ Hset) as (Hb & Hg & He & Hp).
  destruct (processSet_run ctx doAppend single v S (disk w) (trace w) Hb Hg He Hp)
    as (E' & Hsame & Heq).
  rewrite Heq in Hset. clear Heq.
  fold (builtSet ctx S) in Hset, Hsame.
  fold (generated ctx doAppend v S) in Hset, Hsame.
  fold (sortedOf ctx doAppend v S) in Hset, Hsame.
  fold (packaged ctx doAppend S) in Hset, Hsame.
  fold (mergedOf ctx doAppend v S) in Hset.
  destruct (mergeItems _ _ _ _) as [[[e|] fs'] tr'] eqn:Hitems; [done|].
  injection Hset as <-. exists E', fs', tr'. done.
Qed.

(** The buffers a run of [Process] leaves: a file has a buffer when some
    visited template is destined for it, and the buffer is the seed of the
    file followed by the bytes of those templates in the order visited. *)
Lemma Process_buffers ctx doAppend single v w w' S S' :
  templates w !! TemplateType ctx = Some S ->
  Process ctx doAppend single v w = (None, w') ->
  templates w' !! TemplateType ctx = Some S' ->
  forall file e,
    files S' !! file = Some e ->
    exists seed ops,
      seedOf (runContext S ctx) doAppend (builtSet ctx S) (disk w) file = (Ok seed, ops) /\
      e = mkEmitted None
            (seed ++ concat (map eBuf (destined (runContext S ctx) single (builtSet ctx S) file
                                                (mergedOf ctx doAppend v S))))
            file [].
Proof.
  intros HS Hrun HS' file e He.
  destruct (Process_ok _ _ _ _ _ _ _ HS Hrun) as (E' & fs' & tr' & _ & Hitems & ->).
  cbn [templates] in HS'. rewrite lookup_insert_eq in HS'. injection HS' as <-.
  cbn [files with_files] in He. rewrite (mergeItems_ok _ _ _ _ _ _ Hitems file) in He.
  unfold mergedEntry in He. rewrite lookup_empty in He.
  rewrite bufsFor_itemsOf in He.
  destruct (map eBuf _) as [|b0 bs] eqn:Hbufs; [done|].
  destruct (seedOf _ _ _ _ file) as [[seed|err] ops]; [|done].
  injection He as <-. by exists seed, ops.
Qed.

Lemma NoDup_map_inj {A B} (f : A -> B) (l : list A) (x y : A) :
  NoDup (map f l) -> x ∈ l -> y ∈ l -> f x = f y -> x = y.
Proof.
  induction l as [|a l IH]; simpl; intros Hnd Hx Hy Hf.
  - by apply not_elem_of_nil in Hx.
  - apply NoDup_cons in Hnd as [Ha Hnd].
    apply elem_of_cons in Hx as [->|Hx], Hy as [->|Hy]; [done| | |by apply IH].
    + exfalso. apply Ha. rewrite Hf. apply list_elem_of_In, in_map. by apply list_elem_of_In.
    + exfalso. apply Ha. rewrite <- Hf. apply list_elem_of_In, in_map. by apply list_elem_of_In.
Qed.

Lemma StronglySorted_filter {A} (R : relation A) (P : A -> Prop)
      `{forall x, Decision (P x)} (l : list A) :
  StronglySorted R l -> StronglySorted R (filter P l).
Proof.
  induction l as [|x l IH]; intros Hs; [constructor|].
  apply StronglySorted_cons in Hs as [Hx Hl]. rewrite filter_cons.
  destruct (decide (P x)); [|by apply IH].
  apply StronglySorted_cons. split; [|by apply IH].
  rewrite Forall_forall in *. intros y Hy. apply Hx.
  by apply list_elem_of_filter in Hy as [_ Hy].
Qed.

Lemma forallb_Permutation {A} (p : A -> bool) (l1 l2 : list A) :
  l1 ≡ₚ l2 -> forallb p l1 = forallb p l2.
Proof.
  induction 1 as [|x l1 l2 _ IH|x y l|l1 l2 l3 _ IH1 _ IH2]; simpl.
  - done.
  - by rewrite IH.
  - destruct (p x), (p y); done.
  - by rewrite IH1.
Qed.

(** Sorting is insensitive to the order of the input when no two elements
    have the same key. *)
Lemma sortEmitted_unique (l1 l2 : list EmittedTemplate) :
  l1 ≡ₚ l2 -> NoDup (map key l1) -> sortEmitted l1 = sortEmitted l2.
Proof.
  intros Hperm Hnd. unfold sortEmitted.
  apply (StronglySorted_unique_strong notAfter); [|apply sort_Slice_sorted..|].
  - intros x1 x2 H1 H2 H12 H21.
    apply (NoDup_map_inj key l1); [done| | |by apply notAfter_antisym].
    + by rewrite sort_Slice_perm in H1.
    + by rewrite sort_Slice_perm, <- Hperm in H2.
  - by rewrite !sort_Slice_perm.
Qed.

(** The templates of one file, in the order visited: for each name of the
    order, the sorted templates of that name and then the package
    templates of that name. *)
Lemma destined_visited ctx single S file order A B :
  destined ctx single S file (visited order (A ++ B)) =
  flat_map (fun n => destined ctx single S file (matching n A) ++
                     destined ctx single S file (matching n B)) order.
Proof.
  unfold destined, visited. induction order as [|n order IH]; simpl; [done|].
  rewrite filter_app, IH. f_equal. unfold matching. by rewrite !filter_app.
Qed.

(** Two runs whose generation logic emits the same descriptors in another
    order end in the same state, provided no two emitted templates have the
    same key. *)
Lemma Process_emission_order ctx doAppend single v w w' S S' g2 :
  templates w !! TemplateType ctx = Some S ->
  Process ctx doAppend single v w = (None, w') ->
  templates w' !! TemplateType ctx = Some S' ->
  genEmits (SetProcess S (runContext S ctx) doAppend v) ≡ₚ
    genEmits (g2 (runContext S ctx) doAppend v) ->
  genErr (g2 (runContext S ctx) doAppend v) = None ->
  NoDup (map key (emitted S ++ generated ctx doAppend v S)) ->
  Process ctx doAppend single v
          (mkWorld (<[TemplateType ctx := with_process g2 S]> (templates w))
                   (disk w) (trace w)) =
  (None, mkWorld (<[TemplateType ctx := with_process g2 S']> (templates w'))
                 (disk w') (trace w')).
Proof.
  intros HS Hrun HS' Hperm Herr2 Hnd. unfold Process, onSet in *. rewrite HS in Hrun.
  cbn [templates disk trace]. rewrite lookup_insert_eq.
  destruct (processSet ctx doAppend single v (mkSt S (disk w) (trace w)))
    as [[[]|e] st] eqn:Hset; [|done].
  injection Hrun as <-. cbn [templates disk trace] in *.
  rewrite lookup_insert_eq in HS'. injection HS' as <-.
  destruct (processSet_ok _ _ _ _ _ _ _ _ Hset) as (Hb & Hg & He & Hp).
  fold (builtSet ctx S) in Hg, Hp.
  rewrite processSet_merge in Hset by done.
  set (S2 := with_process g2 S).
  assert (buildResult (runContext S2 ctx) S2 = buildResult (runContext S ctx) S) as Hb2
    by apply buildResult_process.
  assert (builtSet ctx S2 = with_process g2 (builtSet ctx S)) as Hbs.
  { unfold builtSet. by rewrite Hb2. }
  assert (sortedOf ctx doAppend v S2 = sortedOf ctx doAppend v S) as Hsorted.
  { unfold sortedOf. symmetry. apply sortEmitted_unique; [|done].
    unfold generated. rewrite Hbs. change (emitted S2) with (emitted S).
    change (SetProcess S2 (runContext S2 ctx) doAppend v)
      with (g2 (runContext S ctx) doAppend v).
    change (frag (runContext S2 ctx) (with_process g2 (builtSet ctx S)))
      with (frag (runContext S ctx) (builtSet ctx S)).
    by rewrite Hperm. }
  assert (packaged ctx doAppend S2 = packaged ctx doAppend S) as Hpackaged.
  { unfold packaged. by rewrite Hbs. }
  rewrite processSet_merge.
  - rewrite Hsorted, Hpackaged, Hbs.
    change (finalOrder S2 (runContext S2 ctx) doAppend)
      with (finalOrder S (runContext S ctx) doAppend).
    change (runContext S2 ctx) with (runContext S ctx).
    change (with_files ∅ (with_emitted ?E (with_process g2 (builtSet ctx S))))
      with (with_process g2 (with_files ∅ (with_emitted E (builtSet ctx S)))).
    rewrite mergeOrder_process, Hset. cbn [onSt errorOf st_set st_disk st_trace].
    by rewrite !insert_insert_eq.
  - by rewrite Hb2.
  - rewrite Hbs.
    change (SetProcess S2 (runContext S2 ctx) doAppend v)
      with (g2 (runContext S ctx) doAppend v).
    change (renders (runContext S2 ctx) (with_process g2 (builtSet ctx S)))
      with (renders (runContext S ctx) (builtSet ctx S)).
    by rewrite <- (forallb_Permutation _ _ _ Hperm).
  - exact Herr2.
  - rewrite Hbs. exact Hp.
Qed.

(** C1 (amended): after a run of [Process] that returns no error, the
    buffer of every output file is the seed of the file followed by the
    bytes of the templates destined for it, taken name by name in the
    sequence of the final processing order (not in the order of the names
    themselves); under one name come first the templates that were in
    [set.emitted] when it was sorted, none of them less than an earlier one
    by the key (template name, type, instance name), and then the package
    templates of that name, as the run emitted them.  Moreover, when no two
    of the sorted templates have the same key, the run of the same set with
    another generation logic [g2], one that emits the same descriptors in
    another order, ends in the very same state, file buffers included (the
    set then carries [g2], and that is the only difference). *)
Theorem Process_fragment_order (ctx : Context) (doAppend : bool) (single : string) (v : XO)
        (w w' : World) (S S' : TemplateSet) :
  templates w !! TemplateType ctx = Some S ->
  Process ctx doAppend single v w = (None, w') ->
  templates w' !! TemplateType ctx = Some S' ->
  (forall file e,
      files S' !! file = Some e ->
      (exists seed,
          (seedOf (runContext S ctx) doAppend (builtSet ctx S) (disk w) file).1 = Ok seed /\
          eBuf e =
          seed ++ concat (map eBuf
            (flat_map
               (fun n =>
                  destined (runContext S ctx) single (builtSet ctx S) file
                           (matching n (sortedOf ctx doAppend v S)) ++
                  destined (runContext S ctx) single (builtSet ctx S) file
                           (matching n (packaged ctx doAppend S)))
               (finalOrder S (runContext S ctx) doAppend)))) /\
      forall n,
        StronglySorted notAfter
          (destined (runContext S ctx) single (builtSet ctx S) file
                    (matching n (sortedOf ctx doAppend v S)))) /\
  (forall g2,
      genEmits (SetProcess S (runContext S ctx) doAppend v) ≡ₚ
        genEmits (g2 (runContext S ctx) doAppend v) ->
      genErr (g2 (runContext S ctx) doAppend v) = None ->
      NoDup (map key (emitted S ++ generated ctx doAppend v S)) ->
      Process ctx doAppend single v
              (mkWorld (<[TemplateType ctx := with_process g2 S]> (templates w))
                       (disk w) (trace w)) =
      (None, mkWorld (<[TemplateType ctx := with_process g2 S']> (templates w'))
                     (disk w') (trace w'))).
Proof.
  intros HS Hrun HS'. split.
  - intros file e He. split.
    + destruct (Process_buffers _ _ _ _ _ _ _ _ HS Hrun HS' file e He)
        as (seed & ops & Hseed & ->).
      exists seed. rewrite Hseed. split; [done|].
      cbn [eBuf]. unfold mergedOf. by rewrite destined_visited.
    + intros n. unfold destined, matching, sortedOf, sortEmitted.
      apply StronglySorted_filter, StronglySorted_filter, sort_Slice_sorted.
  - intros g2 Hperm Herr Hnd. by eapply Process_emission_order.
Qed.


Lemma flat_map_ext_elem {A B} (f g : A -> list B) (l : list A) :
  (forall a, a ∈ l -> f a = g a) -> flat_map f l = flat_map g l.
Proof.
  induction l as [|a l IH]; simpl; intros Hfg; [done|].
  rewrite Hfg by (by left). f_equal. apply IH. intros b Hb. apply Hfg. by right.
Qed.

Lemma removeMatching_elem (v s : list string) (n : string) :
  n ∈ removeMatching v s -> n ∉ s.
Proof.
  induction v as [|z v IH]; simpl; [by intros ?%not_elem_of_nil|].
  destruct (contains s z) eqn:Hc; [done|].
  intros [->|Hin]%elem_of_cons; [|by apply IH].
  intros Hin. apply contains_elem in Hin. congruence.
Qed.

Lemma matching_none n (l : list EmittedTemplate) :
  (forall x, x ∈ l -> tTemplate (descr x) <> n) -> matching n l = [].
Proof.
  intros Hl. unfold matching. induction l as [|x l IH]; [done|].
  rewrite filter_cons, decide_False; [apply IH|].
  - intros y Hy. apply Hl. by right.
  - apply Hl. by left.
Qed.

Lemma visited_app order1 order2 E :
  visited (order1 ++ order2) E = visited order1 E ++ visited order2 E.
Proof. unfold visited. apply flat_map_app. Qed.

Lemma visited_left order A B :
  (forall n x, n ∈ order -> x ∈ B -> tTemplate (descr x) <> n) ->
  visited order (A ++ B) = visited order A.
Proof.
  intros HB. unfold visited. induction order as [|n order IH]; simpl; [done|].
  rewrite IH by (intros m x Hm; apply HB; by right).
  unfold matching at 1. rewrite filter_app. fold (matching n A) (matching n B).
  rewrite (matching_none n B), app_nil_r; [done|].
  intros x Hx. apply HB; [by left | done].
Qed.

(** With distinct names, visiting the package templates by their names
    gives each of them once, in the order of the factory. *)
Lemma visited_packages ctx S (pk : list Template) :
  NoDup (map tTemplate pk) ->
  visited (map tTemplate pk) (map (frag ctx S) pk) = map (frag ctx S) pk.
Proof.
  unfold visited. induction pk as [|t pk IH]; simpl; intros Hnd; [done|].
  apply NoDup_cons in Hnd as [Ht Hnd].
  unfold matching at 1. rewrite filter_cons, decide_True by done.
  fold (matching (tTemplate t) (map (frag ctx S) pk)).
  rewrite matching_none; simpl.
  2:{ intros x Hx Heq. apply Ht. rewrite <- Heq.
      apply list_elem_of_In, in_map_iff in Hx as (t' & <- & Hin).
      apply list_elem_of_In, in_map. exact Hin. }
  f_equal. etrans; [|by apply IH].
  apply flat_map_ext_elem. intros n Hn.
  unfold matching. rewrite filter_cons, decide_False; [done|].
  intros Heq. change (tTemplate t = n) in Heq. apply Ht. by rewrite Heq.
Qed.

(** C2 (amended): in a run of [Process] that does not append, has a
    [PackageTemplates] factory and returns no error, the processing order
    is the names of the package templates, as the factory lists them,
    followed by [set.Order] without those names.  When moreover the names of
    the package templates are pairwise distinct and no other emitted
    template (left in [set.emitted] or emitted by the generation logic)
    carries one of them, every file buffer is the seed of the file, then the
    package templates destined for the file, each once and in the order of
    the factory, then the emitted templates of the other names. *)
Theorem Process_package_first (ctx : Context) (single : string) (v : XO) (w w' : World)
        (S S' : TemplateSet) (pkg : Context -> list Template) :
  templates w !! TemplateType ctx = Some S ->
  PackageTemplates S = Some pkg ->
  Process ctx false single v w = (None, w') ->
  templates w' !! TemplateType ctx = Some S' ->
  NoDup (map tTemplate (pkg (runContext S ctx))) ->
  (forall x, x ∈ emitted S ++ generated ctx false v S ->
             tTemplate (descr x) ∉ map tTemplate (pkg (runContext S ctx))) ->
  finalOrder S (runContext S ctx) false =
    map tTemplate (pkg (runContext S ctx)) ++
    removeMatching (Order S) (map tTemplate (pkg (runContext S ctx))) /\
  packaged ctx false S = map (frag (runContext S ctx) (builtSet ctx S)) (pkg (runContext S ctx)) /\
  forall file e,
    files S' !! file = Some e ->
    exists seed,
      (seedOf (runContext S ctx) false (builtSet ctx S) (disk w) file).1 = Ok seed /\
      eBuf e =
      seed ++
      concat (map eBuf (destined (runContext S ctx) single (builtSet ctx S) file
                                 (packaged ctx false S))) ++
      concat (map eBuf
        (destined (runContext S ctx) single (builtSet ctx S) file
           (visited (removeMatching (Order S) (map tTemplate (pkg (runContext S ctx))))
                    (sortedOf ctx false v S)))).
Proof.
  intros HS Hpkg Hrun HS' Hnd Hother.
  assert (finalOrder S (runContext S ctx) false =
          map tTemplate (pkg (runContext S ctx)) ++
          removeMatching (Order S) (map tTemplate (pkg (runContext S ctx)))) as Horder.
  { unfold finalOrder. by rewrite Hpkg. }
  assert (packaged ctx false S =
          map (frag (runContext S ctx) (builtSet ctx S)) (pkg (runContext S ctx))) as Hpk.
  { unfold packaged, packageDescrs. by rewrite Hpkg. }
  split; [done|]. split; [done|].
  intros file e He.
  destruct (Process_buffers _ _ _ _ _ _ _ _ HS Hrun HS' file e He)
    as (seed & ops & Hseed & ->).
  exists seed. rewrite Hseed. split; [done|]. cbn [eBuf]. f_equal. rewrite <- concat_app, <- map_app. do 2 f_equal.
  unfold destined at 2 3. rewrite <- filter_app. fold (destined (runContext S ctx) single
    (builtSet ctx S) file). f_equal.
  unfold mergedOf. rewrite Horder, visited_app. f_equal.
  - set (names := map tTemplate (pkg (runContext S ctx))).
    rewrite Hpk.
    etrans; [|by apply (visited_packages (runContext S ctx) (builtSet ctx S) _ Hnd)].
    unfold visited. apply flat_map_ext_elem. intros n Hn. fold names in Hn.
    unfold matching at 1. rewrite filter_app.
    fold (matching n (sortedOf ctx false v S)).
    rewrite (matching_none n (sortedOf ctx false v S)); [done|].
    intros x Hx Heq. apply (Hother x).
    + unfold sortedOf, sortEmitted in Hx. by rewrite sort_Slice_perm in Hx.
    + rewrite Heq. exact Hn.
  - apply visited_left. intros n x Hn Hx Heq.
    apply removeMatching_elem in Hn. apply Hn. rewrite <- Heq, Hpk in *.
    apply list_elem_of_In, in_map_iff in Hx as (t & <- & Hin).
    apply list_elem_of_In, in_map. exact Hin.
Qed.

(** [Process] returns the failure of [BuildFuncs] and has changed nothing
    but the funcs of the set. *)
Lemma Process_build_failure ctx doAppend single v w S e :
  templates w !! TemplateType ctx = Some S ->
  (buildResult (runContext S ctx) S).1 = Err e ->
  Process ctx doAppend single v w =
  (Some (ErrBuildFuncs e),
   mkWorld (<[TemplateType ctx := builtSet ctx S]> (templates w)) (disk w) (trace w)).
Proof.
  intros HS Hb. unfold Process, onSet. rewrite HS.
  unfold processSet. unfold bind at 1, getSet at 1. cbn [st_set].
  unfold bind at 1, wrap. rewrite BuildFuncs_run, Hb. done.
Qed.

(** C6 (amended): without the resource funcs.go.tpl, [BuildFuncs] returns
    no error and leaves the baseline funcs.  With the resource read,
    [BuildFuncs] fails exactly when the interpreter cannot take one of the
    symbol tables, the script does not evaluate, [funcs.Init] is missing,
    has another signature or returns an error; otherwise the funcs are
    those returned by [Init] over the baseline.  It also fails when the
    resource cannot be opened, for another reason than its absence, or
    cannot be read.  Every failure is returned by [Process], wrapped, with
    the set as it was but for its funcs: nothing was emitted, the file map,
    the output directory and the calls on it are as before. *)
Theorem Process_custom_funcs (ctx : Context) (doAppend : bool) (single : string) (v : XO)
        (w : World) (S : TemplateSet) :
  templates w !! TemplateType ctx = Some S ->
  (source (runContext S ctx) S "funcs.go.tpl" = OpenNotExist ->
   buildResult (runContext S ctx) S = (Ok tt, baseline (runContext S ctx) S)) /\
  (forall buf,
      source (runContext S ctx) S "funcs.go.tpl" = OpenFile (Ok buf) ->
      ((exists e, (buildResult (runContext S ctx) S).1 = Err e) <->
       setupFails (interp_New GoPath) (runContext S ctx) \/
       scriptFails (interp_New GoPath) buf \/
       initMissing (interp_New GoPath) buf \/
       initMisshaped (interp_New GoPath) buf \/
       initFails (interp_New GoPath) (runContext S ctx) buf) /\
      (forall z m,
          (buildResult (runContext S ctx) S).1 = Ok tt ->
          EvalInit (interp_New GoPath) buf = Ok (VInit z) ->
          z (runContext S ctx) = Ok m ->
          (buildResult (runContext S ctx) S).2 = m ∪ baseline (runContext S ctx) S)) /\
  (forall e,
      source (runContext S ctx) S "funcs.go.tpl" = OpenError e \/
      source (runContext S ctx) S "funcs.go.tpl" = OpenFile (Err e) ->
      exists e', (buildResult (runContext S ctx) S).1 = Err e') /\
  (forall e,
      (buildResult (runContext S ctx) S).1 = Err e ->
      Process ctx doAppend single v w =
      (Some (ErrBuildFuncs e),
       mkWorld (<[TemplateType ctx := with_funcs (buildResult (runContext S ctx) S).2 S]>
                  (templates w)) (disk w) (trace w))).
Proof.
  intros HS. set (ctx' := runContext S ctx).
  assert (forall r, source ctx' S "funcs.go.tpl" = r ->
            buildResult ctx' S =
            match r with
            | OpenNotExist => (Ok tt, baseline ctx' S)
            | OpenError e => (Err (ErrLoadFuncs e), baseline ctx' S)
            | OpenFile (Err e) => (Err (ErrReadFuncs e), baseline ctx' S)
            | OpenFile (Ok buf) => buildResult ctx' S
            end) as Hcases.
  { intros r Hr. unfold buildResult, BuildFuncs, AddCustomFuncs, bind, getSet, modifySet,
      ret, fail. cbn [st_set].
    change (source ctx' (with_funcs ?m S)) with (source ctx' S). rewrite Hr.
    by destruct r as [|e|[buf|e]]. }
  split_and!.
  - intros Hsrc. by rewrite (Hcases _ Hsrc).
  - intros buf Hsrc.
    unfold buildResult, BuildFuncs, AddCustomFuncs, bind, getSet, modifySet, ret, fail.
    cbn [st_set]. change (source ctx' (with_funcs ?m S)) with (source ctx' S). rewrite Hsrc.
    unfold setupFails, scriptFails, initMissing, initMisshaped, initFails.
    fold (baseline ctx' S).
    destruct (UseStdlib (interp_New GoPath)) as [e1|]; cbn.
    { split; [|done]. split; [intros _; left; left; by eexists | by eexists]. }
    destruct (UseSyscall (interp_New GoPath)) as [e2|]; cbn.
    { split; [|done]. split; [intros _; left; right; left; by eexists | by eexists]. }
    destruct (UseUnsafe (interp_New GoPath)) as [e3|]; cbn.
    { split; [|done]. split; [intros _; left; right; right; left; by eexists | by eexists]. }
    destruct (UseSymbols (interp_New GoPath) (Symbols ctx')) as [e4|]; cbn.
    { split; [|done]. split; [intros _; left; right; right; right; by eexists | by eexists]. }
    destruct (EvalSrc (interp_New GoPath) buf) as [e5|]; cbn.
    { split; [|done]. split; [intros _; right; left; by eexists | by eexists]. }
    destruct (EvalInit (interp_New GoPath) buf) as [[z|has]|e6]; cbn.
    + destruct (z ctx') as [m|e7] eqn:Hz; cbn.
      * split.
        -- split; [by intros [e He]|].
           intros [[[? ?]|[[? ?]|[[? ?]|[? ?]]]]|[[? ?]|[[? ?]|[[? ?]|(z' & e' & [= <-] & He')]]]];
             try done. congruence.
        -- intros z' m' _ [= <-] Hz'. rewrite Hz in Hz'. by injection Hz' as <-.
      * split; [|done]. split; [|by eexists].
        intros _. right. right. right. right. by exists z, e7.
    + split; [|done]. split; [|by eexists].
      intros _. right. right. right. left. by eexists.
    + split; [|done]. split; [|by eexists].
      intros _. right. right. left. by eexists.
  - intros e [Hsrc|Hsrc]; rewrite (Hcases _ Hsrc); by eexists.
  - intros e He. by apply Process_build_failure.
Qed.

(** The file map is made anew and the funcs are built anew: a run of
    [Process] that returns no error ends in the same state whatever file
    map and funcs an earlier run has left in the set. *)
Lemma Process_forgets ctx doAppend single v (T : Registry) S fs m (d : Disk) tr :
  (Process ctx doAppend single v (mkWorld (<[TemplateType ctx := S]> T) d tr)).1 = None ->
  Process ctx doAppend single v
          (mkWorld (<[TemplateType ctx := with_funcs m (with_files fs S)]> T) d tr) =
  Process ctx doAppend single v (mkWorld (<[TemplateType ctx := S]> T) d tr).
Proof.
  unfold Process, onSet. cbn [templates disk trace]. rewrite !lookup_insert_eq.
  destruct (processSet ctx doAppend single v (mkSt S d tr)) as [[[]|e] st] eqn:Hset; [|done].
  intros _. destruct (processSet_ok _ _ _ _ _ _ _ _ Hset) as (Hb & Hg & He & Hp).
  fold (builtSet ctx S) in Hg, Hp.
  rewrite processSet_merge in Hset by done.
  set (S2 := with_funcs m (with_files fs S)).
  assert (buildResult (runContext S2 ctx) S2 = buildResult (runContext S ctx) S) as Hb2
    by apply buildResult_forgets.
  assert (builtSet ctx S2 = with_files fs (builtSet ctx S)) as Hbs.
  { unfold builtSet. by rewrite Hb2. }
  rewrite processSet_merge.
  - unfold sortedOf, generated, packaged. rewrite Hbs.
    change (mergeOrder (runContext S ctx) doAppend single
              (finalOrder S (runContext S ctx) doAppend)
              (mkSt (with_files ∅ (with_emitted (sortedOf ctx doAppend v S ++
                                                   packaged ctx doAppend S)
                                                (builtSet ctx S))) d tr) =
            (Ok tt, st)) in Hset.
    change (with_emitted ?E (with_files fs (builtSet ctx S)))
      with (with_files fs (with_emitted E (builtSet ctx S))).
    change (with_files ∅ (with_files fs ?X)) with (with_files ∅ X).
    change (frag (runContext S2 ctx) (with_files fs (builtSet ctx S)))
      with (frag (runContext S ctx) (builtSet ctx S)).
    fold (generated ctx doAppend v S). fold (sortedOf ctx doAppend v S).
    fold (packaged ctx doAppend S).
    change (finalOrder S2 (runContext S2 ctx) doAppend)
      with (finalOrder S (runContext S ctx) doAppend).
    change (runContext S2 ctx) with (runContext S ctx).
    change (emitted S2) with (emitted S).
    change (SetProcess S2) with (SetProcess S).
    change (packageDescrs S2) with (packageDescrs S).
    fold (generated ctx doAppend v S). fold (sortedOf ctx doAppend v S).
    fold (packaged ctx doAppend S).
    rewrite Hset. by rewrite !insert_insert_eq.
  - by rewrite Hb2.
  - rewrite Hbs. exact Hg.
  - exact He.
  - rewrite Hbs. exact Hp.
Qed.

(** C8: for a name that is not registered, [Process] returns the error
    "unknown template" with that name and leaves the process as it found it:
    the registry and the output directory are the same and no call was made
    on the output directory, neither [os.Stat], nor a read, nor a write. *)
Theorem Process_unknown (ctx : Context) (doAppend : bool) (single : string) (v : XO)
        (w : World) :
  templates w !! TemplateType ctx = None ->
  Process ctx doAppend single v w = (Some (ErrUnknownTemplate (TemplateType ctx)), w).
Proof.
  intros Hnone. unfold Process, onSet. by rewrite Hnone.
Qed.

Lemma matching_discard n x E1 E2 :
  tTemplate (descr x) <> n -> matching n (E1 ++ x :: E2) = matching n (E1 ++ E2).
Proof.
  intros Hne. unfold matching. rewrite !filter_app, filter_cons.
  by rewrite decide_False.
Qed.

Lemma contains_false_cons n order s :
  contains (n :: order) s = false -> n <> s /\ contains order s = false.
Proof.
  simpl. destruct (String.eqb_spec n s); [done|]. by split.
Qed.

Lemma visited_discard order x E1 E2 :
  contains order (tTemplate (descr x)) = false ->
  visited order (E1 ++ x :: E2) = visited order (E1 ++ E2).
Proof.
  induction order as [|n order IH]; intros Hnot; [done|].
  apply contains_false_cons in Hnot as [Hne Hnot].
  unfold visited in *. simpl. rewrite IH by done.
  by rewrite matching_discard.
Qed.

(** C10: the merge at the end of [Process] ([mergeFiles], run on the state
    the earlier steps left) discards an emitted template [x] whose name is
    not in the processing order: the run returns what it returns without
    [x] in [set.emitted] (so no error is reported for [x]), and it leaves
    the same file buffers, the same output directory and the same calls on
    it (so the bytes of [x] are in no buffer). *)
Theorem mergeFiles_discards (ctx : Context) (doAppend : bool) (single : string)
        (order : list string) (S : TemplateSet) (d : Disk) (tr : list FsOp)
        (E1 E2 : list EmittedTemplate) (x : EmittedTemplate) :
  emitted S = E1 ++ x :: E2 ->
  contains order (tTemplate (descr x)) = false ->
  let run := mergeFiles ctx doAppend single order (mkSt S d tr) in
  let run' := mergeFiles ctx doAppend single order (mkSt (with_emitted (E1 ++ E2) S) d tr) in
  run.1 = run'.1 /\
  files (st_set run.2) = files (st_set run'.2) /\
  st_disk run.2 = st_disk run'.2 /\
  st_trace run.2 = st_trace run'.2.
Proof.
  intros HE Hnot. unfold mergeFiles, bind, modifySet. cbn [st_set st_disk st_trace].
  destruct (mergeOrder_run ctx doAppend single order (with_files ∅ S) d tr)
    as (E' & _ & ->).
  destruct (mergeOrder_run ctx doAppend single order
              (with_files ∅ (with_emitted (E1 ++ E2) S)) d tr) as (E'' & _ & ->).
  change (emitted (with_files ∅ S)) with (emitted S). rewrite HE.
  change (emitted (with_files ∅ (with_emitted (E1 ++ E2) S))) with (E1 ++ E2).
  rewrite (visited_discard order x E1 E2 Hnot).
  change (seedOf ctx doAppend (with_files ∅ (with_emitted (E1 ++ E2) S)) d)
    with (seedOf ctx doAppend (with_files ∅ S) d).
  change (itemsOf ctx single (with_files ∅ (with_emitted (E1 ++ E2) S)))
    with (itemsOf ctx single (with_files ∅ S)).
  change (files (with_files ∅ (with_emitted (E1 ++ E2) S))) with (files (with_files ∅ S)).
  destruct (mergeItems _ _ _ _) as [[err fs'] tr']. done.
Qed.
End process_facts.

(** ** The scenarios, evaluated *)

(** C1, as stated, fails twice.  In the scenario of the specification the
    one output file holds header, tables, footer, while the order of the
    keys puts the footer first.  And two notes with the same key are merged
    in the order in which they were emitted. *)
Lemma Process_key_order_counterexample :
  (demoProcess demoCtx false "" ["users"; "posts"] demoWorld).1 = None /\
  bufferOf "demo" "out.sql" (demoProcess demoCtx false "" ["users"; "posts"] demoWorld).2 =
    Some (bytesOf "-- generated --;TABLE posts;TABLE users;-- end --;") /\
  concat (map eBuf
    (insertionSort
       (emitted (setOf "demo" (demoProcess demoCtx false "" ["users"; "posts"] demoWorld).2)))) =
    bytesOf "-- end --;-- generated --;TABLE posts;TABLE users;" /\
  (demoProcess demoCtx false "" ["a"; "b"] noteWorld).1 = None /\
  (demoProcess demoCtx false "" ["b"; "a"] noteWorld).1 = None /\
  bufferOf "demo" "out.sql" (demoProcess demoCtx false "" ["a"; "b"] noteWorld).2 =
    Some (bytesOf "NOTE aNOTE b") /\
  bufferOf "demo" "out.sql" (demoProcess demoCtx false "" ["b"; "a"] noteWorld).2 =
    Some (bytesOf "NOTE bNOTE a").
Proof. by vm_compute. Qed.

Lemma Process_fragment_order_witness :
  templates demoWorld !! TemplateType demoCtx = Some demoSet /\
  demoProcess demoCtx false "" ["users"; "posts"] demoWorld =
    (None, (demoProcess demoCtx false "" ["users"; "posts"] demoWorld).2) /\
  templates (demoProcess demoCtx false "" ["users"; "posts"] demoWorld).2
    !! TemplateType demoCtx =
    Some (setOf "demo" (demoProcess demoCtx false "" ["users"; "posts"] demoWorld).2) /\
  demoProcess demoCtx false "" ["users"; "posts"]
    (mkWorld (<[TemplateType demoCtx := with_process reverseLogic demoSet]>
                (templates demoWorld)) (disk demoWorld) (trace demoWorld)) =
    (None,
     mkWorld (<[TemplateType demoCtx :=
                  with_process reverseLogic
                    (setOf "demo" (demoProcess demoCtx false "" ["users"; "posts"] demoWorld).2)]>
                (templates (demoProcess demoCtx false "" ["users"; "posts"] demoWorld).2))
             (disk (demoProcess demoCtx false "" ["users"; "posts"] demoWorld).2)
             (trace (demoProcess demoCtx false "" ["users"; "posts"] demoWorld).2)).
Proof.
  assert (templates demoWorld !! TemplateType demoCtx = Some demoSet) as H1
    by reflexivity.
  assert (demoProcess demoCtx false "" ["users"; "posts"] demoWorld =
          (None, (demoProcess demoCtx false "" ["users"; "posts"] demoWorld).2)) as H2
    by (vm_compute; reflexivity).
  assert (templates (demoProcess demoCtx false "" ["users"; "posts"] demoWorld).2
            !! TemplateType demoCtx =
          Some (setOf "demo" (demoProcess demoCtx false "" ["users"; "posts"] demoWorld).2))
    as H3 by (vm_compute; reflexivity).
  split_and!; [exact H1 | exact H2 | exact H3 |].
  apply (Process_fragment_order (host:=demoHost) (sorter:=insertionSorter)
           demoCtx false "" ["users"; "posts"] demoWorld _ demoSet _ H1 H2 H3).
  - apply perm_skip, perm_swap.
  - reflexivity.
  - apply (bool_decide_unpack _). by vm_compute.
Defined.

Lemma Process_unknown_witness :
  templates demoWorld !! TemplateType missingCtx = None /\
  demoProcess missingCtx false "" ["users"] demoWorld =
    (Some (ErrUnknownTemplate "missing"), demoWorld).
Proof.
  split; [reflexivity|].
  apply (Process_unknown (host:=demoHost) (sorter:=insertionSorter)
           missingCtx false "" ["users"] demoWorld).
  reflexivity.
Defined.

(** A whole run in which the generation logic emits an index that the
    order does not list: two templates are emitted, no error is returned
    and the one file holds the table alone. *)
Lemma Process_discards_scenario :
  (demoProcess demoCtx false "" ["users"] (mkWorld {[ "demo" := indexSet ]} ∅ [])).1 = None /\
  map (fun t => tTemplate (descr t))
      (emitted (setOf "demo"
         (demoProcess demoCtx false "" ["users"] (mkWorld {[ "demo" := indexSet ]} ∅ [])).2)) =
    ["index"; "table"] /\
  map fst (map_to_list (files (setOf "demo"
         (demoProcess demoCtx false "" ["users"] (mkWorld {[ "demo" := indexSet ]} ∅ [])).2))) =
    ["out.sql"] /\
  bufferOf "demo" "out.sql"
    (demoProcess demoCtx false "" ["users"] (mkWorld {[ "demo" := indexSet ]} ∅ [])).2 =
    Some (bytesOf "TABLE users;").
Proof. by vm_compute. Qed.

Lemma mergeFiles_discards_witness :
  emitted straySet =
    [emittedOf (tableOf "posts") "TABLE posts;"] ++
    strayIndex :: [emittedOf (tableOf "users") "TABLE users;"] /\
  contains (Order demoSet) (tTemplate (descr strayIndex)) = false /\
  (@mergeFiles demoHost demoCtx false "" (Order demoSet) (mkSt straySet ∅ [])).1 =
    (@mergeFiles demoHost demoCtx false "" (Order demoSet)
       (mkSt (with_emitted ([emittedOf (tableOf "posts") "TABLE posts;"] ++
                            [emittedOf (tableOf "users") "TABLE users;"]) straySet) ∅ [])).1 /\
  files (st_set (@mergeFiles demoHost demoCtx false "" (Order demoSet)
                   (mkSt straySet ∅ [])).2) !! "out.sql" =
    Some (mkEmitted None (bytesOf "TABLE posts;TABLE users;") "out.sql" []).
Proof.
  assert (emitted straySet =
          [emittedOf (tableOf "posts") "TABLE posts;"] ++
          strayIndex :: [emittedOf (tableOf "users") "TABLE users;"]) as H1 by reflexivity.
  assert (contains (Order demoSet) (tTemplate (descr strayIndex)) = false) as H2
    by reflexivity.
  destruct (mergeFiles_discards (host:=demoHost) demoCtx false "" (Order demoSet)
              straySet ∅ [] _ _ _ H1 H2) as (Herr & Hfiles & _ & _).
  split_and!; [exact H1 | exact H2 | exact Herr |].
  rewrite Hfiles. by vm_compute.
Defined.



(** C2, as stated, fails when the generation logic emits a template under
    the name of a package template: the content made for the entity comes
    before the content of the package template. *)
Lemma Process_package_counterexample :
  (demoProcess demoCtx false "" ["users"] (worldOf entitySet)).1 = None /\
  bufferOf "demo" "out.sql" (demoProcess demoCtx false "" ["users"] (worldOf entitySet)).2 =
    Some (bytesOf "DB users;DB package;TABLE users;").
Proof. by vm_compute. Qed.

(** With two package templates of one name the content of both is merged
    twice: the name is twice in the processing order. *)
Lemma Process_package_twice :
  (demoProcess demoCtx false "" ["users"] (worldOf twiceSet)).1 = None /\
  bufferOf "demo" "out.sql" (demoProcess demoCtx false "" ["users"] (worldOf twiceSet)).2 =
    Some (bytesOf "DB one;DB two;DB one;DB two;TABLE users;").
Proof. by vm_compute. Qed.

Lemma Process_package_first_witness :
  templates (worldOf pkgSet) !! TemplateType demoCtx = Some pkgSet /\
  PackageTemplates pkgSet = Some (fun _ => [packageOf "package"]) /\
  demoProcess demoCtx false "" ["users"; "posts"] (worldOf pkgSet) =
    (None, (demoProcess demoCtx false "" ["users"; "posts"] (worldOf pkgSet)).2) /\
  templates (demoProcess demoCtx false "" ["users"; "posts"] (worldOf pkgSet)).2
    !! TemplateType demoCtx =
    Some (setOf "demo" (demoProcess demoCtx false "" ["users"; "posts"] (worldOf pkgSet)).2) /\
  NoDup (map tTemplate [packageOf "package"]) /\
  files (setOf "demo" (demoProcess demoCtx false "" ["users"; "posts"] (worldOf pkgSet)).2)
    !! "out.sql" =
    Some (mkEmitted None (bytesOf "DB package;TABLE posts;TABLE users;") "out.sql" []) /\
  exists seed,
    bytesOf "DB package;TABLE posts;TABLE users;" =
    seed ++ bytesOf "DB package;" ++ bytesOf "TABLE posts;TABLE users;".
Proof.
  assert (templates (worldOf pkgSet) !! TemplateType demoCtx = Some pkgSet) as H1
    by reflexivity.
  assert (PackageTemplates pkgSet = Some (fun _ => [packageOf "package"])) as H2
    by reflexivity.
  assert (demoProcess demoCtx false "" ["users"; "posts"] (worldOf pkgSet) =
          (None, (demoProcess demoCtx false "" ["users"; "posts"] (worldOf pkgSet)).2)) as H3
    by (vm_compute; reflexivity).
  assert (templates (demoProcess demoCtx false "" ["users"; "posts"] (worldOf pkgSet)).2
            !! TemplateType demoCtx =
          Some (setOf "demo"
                  (demoProcess demoCtx false "" ["users"; "posts"] (worldOf pkgSet)).2)) as H4
    by (vm_compute; reflexivity).
  assert (NoDup (map tTemplate [packageOf "package"])) as H5
    by (apply (bool_decide_unpack _); by vm_compute).
  assert (files (setOf "demo"
                   (demoProcess demoCtx false "" ["users"; "posts"] (worldOf pkgSet)).2)
            !! "out.sql" =
          Some (mkEmitted None (bytesOf "DB package;TABLE posts;TABLE users;") "out.sql" []))
    as H6 by (vm_compute; reflexivity).
  split_and!; [exact H1 | exact H2 | exact H3 | exact H4 | exact H5 | exact H6 |].
  destruct (Process_package_first (host:=demoHost) (sorter:=insertionSorter)
              demoCtx "" ["users"; "posts"] (worldOf pkgSet) _ pkgSet _ _ H1 H2 H3 H4 H5)
    as (_ & _ & Hbuf).
  - apply Forall_forall. apply (bool_decide_unpack _). by vm_compute.
  - destruct (Hbuf _ _ H6) as (seed & _ & Hseed). exists seed. exact Hseed.
Defined.

(** The hook fails on "a.sql" and the write fails on "c.sql": each failure
    is on the list of its file only, "a.sql" is written with the bytes it
    had before the hook, "b.sql" is written with the bytes the hook
    returned. *)
Lemma Write_scenario :
  (demoWrite demoCtx postWorld).1 = None /\
  files (setOf "demo" (demoWrite demoCtx postWorld).2) !! "a.sql" =
    Some (mkEmitted None (bytesOf "AAA") "a.sql"
                    [ErrPostFailed "a.sql" (ErrExternal "gofmt")]) /\
  files (setOf "demo" (demoWrite demoCtx postWorld).2) !! "b.sql" =
    Some (mkEmitted None (bytesOf "BBB!") "b.sql" []) /\
  files (setOf "demo" (demoWrite demoCtx postWorld).2) !! "c.sql" =
    Some (mkEmitted None (bytesOf "CCC!") "c.sql" [ErrExternal "is a directory"]) /\
  disk (demoWrite demoCtx postWorld).2 !! "gen/a.sql" = Some (Regular (bytesOf "AAA")) /\
  disk (demoWrite demoCtx postWorld).2 !! "gen/b.sql" = Some (Regular (bytesOf "BBB!")) /\
  disk (demoWrite demoCtx postWorld).2 !! "gen/c.sql" = Some Dir /\
  Errors demoCtx (demoWrite demoCtx postWorld).2 =
    Ok [ErrPostFailed "a.sql" (ErrExternal "gofmt"); ErrExternal "is a directory"].
Proof. by vm_compute. Qed.


(** C6, as stated, fails: funcs.go.tpl is there but cannot be read, and the
    run fails although no script was evaluated and the interpreter would
    have found a well-shaped [Init] that returns no error. *)
Lemma Process_custom_funcs_counterexample :
  source demoCtx unreadableSet "funcs.go.tpl" = OpenFile (Err (ErrExternal "is a directory")) /\
  @interp_New scriptHost (@GoPath scriptHost) = goodInterp /\
  (scriptProcess demoCtx false "" ["users"] (worldOf unreadableSet)).1 =
    Some (ErrBuildFuncs (ErrReadFuncs (ErrExternal "is a directory"))) /\
  emitted (setOf "demo" (scriptProcess demoCtx false "" ["users"] (worldOf unreadableSet)).2) = [].
Proof. by vm_compute. Qed.

Lemma Process_custom_funcs_witness :
  templates (worldOf scriptedSet) !! TemplateType demoCtx = Some scriptedSet /\
  (@buildResult scriptHost (runContext scriptedSet demoCtx) scriptedSet).2 =
    {[ "snake" := "funcs.snake" ]} ∪ @baseline scriptHost (runContext scriptedSet demoCtx) scriptedSet.
Proof.
  assert (templates (worldOf scriptedSet) !! TemplateType demoCtx = Some scriptedSet) as H1
    by reflexivity.
  split; [exact H1|].
  destruct (Process_custom_funcs (host:=scriptHost) (sorter:=insertionSorter)
              demoCtx false "" ["users"] (worldOf scriptedSet) scriptedSet H1)
    as (_ & Hpresent & _).
  destruct (Hpresent (bytesOf "package funcs")) as [_ Hmerge]; [reflexivity|].
  apply (Hmerge (fun _ => Ok {[ "snake" := "funcs.snake" ]})); reflexivity.
Defined.

(** ** Runs one after the other on one template set *)

(** C3: the code does not reset [set.emitted].  After a first run the
    slice holds the three templates of the run; the second run, on the same
    set with the same data model, starts from them, ends with six, and
    merges every template twice.  The file map is made anew: the buffer of
    the second run does not start with the buffer of the first. *)
Lemma Process_keeps_emitted :
  (demoProcess demoCtx false "" ["users"] demoWorld).1 = None /\
  length (emitted (setOf "demo" (demoProcess demoCtx false "" ["users"] demoWorld).2)) = 3 /\
  bufferOf "demo" "out.sql" (demoProcess demoCtx false "" ["users"] demoWorld).2 =
    Some (bytesOf "-- generated --;TABLE users;-- end --;") /\
  (demoProcess demoCtx false "" ["users"]
     (demoProcess demoCtx false "" ["users"] demoWorld).2).1 = None /\
  length (emitted (setOf "demo"
     (demoProcess demoCtx false "" ["users"]
        (demoProcess demoCtx false "" ["users"] demoWorld).2).2)) = 6 /\
  bufferOf "demo" "out.sql"
     (demoProcess demoCtx false "" ["users"]
        (demoProcess demoCtx false "" ["users"] demoWorld).2).2 =
    Some (bytesOf
      "-- generated --;-- generated --;TABLE users;TABLE users;-- end --;-- end --;").
Proof. by vm_compute. Qed.

(** C7: two complete runs with the same data model, target, mode and
    starting directory, the second on the template set the first has used:
    the file written differs. *)
Lemma demoRun_twice_differs :
  (demoRun demoCtx false "" ["users"] demoWorld).1 = None /\
  disk (demoRun demoCtx false "" ["users"] demoWorld).2 !! "gen/out.sql" =
    Some (Regular (bytesOf "-- generated --;TABLE users;-- end --;")) /\
  disk (sameDirectory demoWorld (demoRun demoCtx false "" ["users"] demoWorld).2) =
    disk demoWorld /\
  (demoRun demoCtx false "" ["users"]
     (sameDirectory demoWorld (demoRun demoCtx false "" ["users"] demoWorld).2)).1 = None /\
  disk (demoRun demoCtx false "" ["users"]
          (sameDirectory demoWorld (demoRun demoCtx false "" ["users"] demoWorld).2)).2
    !! "gen/out.sql" =
    Some (Regular (bytesOf
      "-- generated --;-- generated --;TABLE users;TABLE users;-- end --;-- end --;")).
Proof. by vm_compute. Qed.

(** * More of the package

    ** The registry *)

Lemma sort_Strings_sorted (l : list string) : StronglySorted String.le (sort_Strings l).
Proof. unfold sort_Strings. apply StronglySorted_merge_sort; apply _. Qed.

Lemma sort_Strings_perm (l : list string) : sort_Strings l ≡ₚ l.
Proof. unfold sort_Strings. apply merge_sort_Permutation. Qed.

(** Sorting two lists with the same elements gives the same slice. *)
Lemma sort_Strings_unique (l1 l2 : list string) :
  l1 ≡ₚ l2 -> sort_Strings l1 = sort_Strings l2.
Proof.
  intros Hperm. apply (StronglySorted_unique String.le); [apply sort_Strings_sorted..|].
  by rewrite !sort_Strings_perm.
Qed.

(** X1: [Types] returns every registered name once, in ascending order,
    and nothing else, whatever the order in which the map is walked. *)
Theorem Types_sorted (templates : Registry) :
  StronglySorted String.le (Types templates) /\
  NoDup (Types templates) /\
  forall typ, typ ∈ Types templates <-> is_Some (templates !! typ).
Proof.
  split_and!.
  - apply sort_Strings_sorted.
  - unfold Types. rewrite sort_Strings_perm. apply NoDup_fst_map_to_list.
  - apply Types_elem.
Qed.

Lemma keys_insert_present {A} (m : gmap string A) (k : string) (x : A) :
  is_Some (m !! k) -> (map_to_list (<[k := x]> m)).*1 ≡ₚ (map_to_list m).*1.
Proof.
  intros Hk. apply NoDup_Permutation; [apply NoDup_fst_map_to_list..|].
  intros k'. rewrite !list_elem_of_fmap. split.
  - intros [[k0 x0] [-> Hin]]. apply elem_of_map_to_list in Hin. simpl.
    destruct (decide (k = k0)) as [<-|Hne].
    + destruct Hk as [y Hy]. exists (k, y). split; [done|]. by apply elem_of_map_to_list.
    + rewrite lookup_insert_ne in Hin by done.
      exists (k0, x0). split; [done|]. by apply elem_of_map_to_list.
  - intros [[k0 x0] [-> Hin]]. apply elem_of_map_to_list in Hin. simpl.
    destruct (decide (k = k0)) as [<-|Hne].
    + exists (k, x). split; [done|]. apply elem_of_map_to_list. apply lookup_insert_eq.
    + exists (k0, x0). split; [done|]. apply elem_of_map_to_list.
      by rewrite lookup_insert_ne.
Qed.

(** X2: registering a set under a name that is registered already replaces
    the set of that name, leaves the sets of the other names and leaves the
    list of names as it was: the last registration wins, silently. *)
Theorem Register_again (templates : Registry) (typ : string) (set : TemplateSet) :
  is_Some (templates !! typ) ->
  Register typ set templates !! typ = Some set /\
  (forall typ', typ' <> typ -> Register typ set templates !! typ' = templates !! typ') /\
  Types (Register typ set templates) = Types templates.
Proof.
  intros Hreg. unfold Register. split_and!.
  - apply lookup_insert_eq.
  - intros typ' Hne. by rewrite lookup_insert_ne.
  - unfold Types. apply sort_Strings_unique. by apply keys_insert_present.
Qed.

(** X3: every flag that [Flags] returns for a command name belongs to a
    registered set that [For] accepts for that name. *)
Theorem Flags_For (templates : Registry) (name : string) (fs : FlagSet) :
  fs ∈ Flags templates name ->
  is_Some (templates !! fsType fs) /\ For templates (fsType fs) name = true.
Proof.
  unfold Flags. rewrite list_elem_of_In, in_flat_map.
  intros (typ & Htyp & Hin). destruct (templates !! typ) as [set|] eqn:Hset; [|done].
  destruct (skipped set name) eqn:Hskip; [done|].
  unfold flagsOf in Hin. apply in_map_iff in Hin as (flag & <- & Hflag). simpl.
  rewrite Hset. split; [by eexists|].
  unfold For. rewrite Hset. destruct (String.eqb name "dump"); [done|].
  unfold skipped in Hskip. destruct (SetFor set); [|done].
  by apply negb_false_iff in Hskip.
Qed.

Lemma flagsOf_type typ set : Forall (fun fs => fsType fs = typ) (flagsOf typ set).
Proof.
  unfold flagsOf. apply Forall_forall. intros fs Hin.
  apply list_elem_of_In, in_map_iff in Hin as (flag & <- & _). done.
Qed.

Lemma flat_map_sorted_types (f : string -> list FlagSet) (l : list string) :
  (forall typ, Forall (fun fs => fsType fs = typ) (f typ)) ->
  StronglySorted String.le l ->
  StronglySorted String.le (map fsType (flat_map f l)).
Proof.
  intros Hf. induction l as [|typ l IH]; intros Hs; [constructor|].
  apply StronglySorted_cons in Hs as [Hle Hs]. simpl. rewrite map_app.
  apply StronglySorted_app. split_and!.
  - intros t1 t2 H1 H2.
    apply list_elem_of_In, in_map_iff in H1 as (fs1 & <- & H1).
    apply list_elem_of_In, in_map_iff in H2 as (fs2 & <- & H2).
    apply in_flat_map in H2 as (typ2 & Htyp2 & H2).
    pose proof (Hf typ) as Hf1. rewrite Forall_forall in Hf1.
    pose proof (Hf typ2) as Hf2. rewrite Forall_forall in Hf2.
    rewrite (Hf1 fs1) by (by apply list_elem_of_In).
    rewrite (Hf2 fs2) by (by apply list_elem_of_In).
    rewrite Forall_forall in Hle. apply Hle. by apply list_elem_of_In.
  - pose proof (Hf typ) as Hf1. induction (f typ) as [|fs fss IHf]; [constructor|].
    apply Forall_cons in Hf1 as [Hfs Hfss]. simpl. apply StronglySorted_cons.
    split; [|by apply IHf].
    apply Forall_forall. intros t Ht.
    apply list_elem_of_In, in_map_iff in Ht as (fs' & <- & Hin).
    rewrite Forall_forall in Hfss. rewrite Hfs, (Hfss fs') by (by apply list_elem_of_In).
    done.
  - by apply IH.
Qed.

(** X4: the flags come out of [Flags] in the ascending order of the names
    of their sets, and the name of every flag set is the context key of its
    flag. *)
Theorem Flags_sorted (templates : Registry) (name : string) :
  StronglySorted String.le (map fsType (Flags templates name)) /\
  Forall (fun fs => fsName fs = ContextKey (fsFlag fs)) (Flags templates name).
Proof.
  split.
  - unfold Flags. apply flat_map_sorted_types; [|apply sort_Strings_sorted].
    intros typ. destruct (templates !! typ) as [set|]; [|constructor].
    destruct (skipped set name); [constructor | apply flagsOf_type].
  - apply Forall_forall. intros fs Hin. unfold Flags in Hin.
    apply list_elem_of_In, in_flat_map in Hin as (typ & _ & Hin).
    destruct (templates !! typ) as [set|]; [|done].
    destruct (skipped set name); [done|].
    unfold flagsOf in Hin. by apply in_map_iff in Hin as (flag & <- & _).
Qed.

(** ** Slice helpers and the comparison of [sortEmitted] *)

(** X5: [removeMatching v s] is [v] without the strings that are in [s]:
    what is kept stays in the order of [v], as often as it is in [v]. *)
Theorem removeMatching_filter (v s : list string) :
  removeMatching v s = filter (fun z => z ∉ s) v.
Proof.
  induction v as [|z v IH]; [done|]. simpl. rewrite filter_cons.
  destruct (contains s z) eqn:Hc.
  - apply contains_elem in Hc. by rewrite decide_False by (by intros ?).
  - rewrite decide_True; [by rewrite IH|].
    intros Hin. apply contains_elem in Hin. congruence.
Qed.

Lemma emittedLess_key x y : key x = key y -> emittedLess x y = false.
Proof.
  unfold key, emittedLess. intros [= -> -> ->].
  rewrite !String.eqb_refl. simpl. apply ltb_irrefl.
Qed.

(** X6: the comparison handed to [sort.Slice] is a strict weak ordering,
    as sorting needs: no emitted template is less than itself, less is
    transitive, and two emitted templates are tied, neither less than the
    other, exactly when template name, type and instance name agree; the
    set, the payload and the bytes do not count. *)
Theorem emittedLess_strict_weak :
  (forall x, emittedLess x x = false) /\
  (forall x y z, emittedLess x y = true -> emittedLess y z = true -> emittedLess x z = true) /\
  (forall x y, emittedLess x y = false /\ emittedLess y x = false <-> key x = key y).
Proof.
  split_and!.
  - intros x. apply notAfter_refl.
  - intros x y z Hxy Hyz. destruct (emittedLess x z) eqn:Hxz; [done|].
    assert (notAfter z y) as Hzy.
    { eapply notAfter_trans; [exact Hxz | by apply notAfter_less]. }
    unfold notAfter in Hzy. congruence.
  - intros x y. split.
    + intros [Hxy Hyx]. by apply notAfter_antisym.
    + intros Hk. split; by apply emittedLess_key.
Qed.
